(** * The /uncover command of the writing-assistant plugin

    A shallow embedding of the three variants of the plugin's [main.ts]
    ([src/main.ts], [src/unnamed/part_000], [src/unnamed/part_001]) and
    the properties of its two-step pipeline: tag-based note discovery
    ([getNotesWithTag]) and prompt assembly plus one remote completion
    call ([generateContent]), driven by the editor command
    ([editorCallback]).

    JavaScript strings are modelled as [string] (a sequence of code
    units); [async] functions as state-passing computations over a
    [World] that records every observable effect (console lines, vault
    reads issued, provider requests, text inserted in the editor) and
    end in a settled promise: [Fulfilled v] or [Rejected e]. *)

From Stdlib Require Import ZArith Lia Ascii.
From stdpp Require Import base list strings.

Local Open Scope Z_scope.
Local Open Scope nat_scope.

(** ** JavaScript values used by the plugin *)

Module JS.

(** An error value (what [throw] carries and [catch] binds). *)
Definition Error := string.

(** The line feed written [\n] in the source. *)
Definition LF : string := String "010"%char "".

(** [s.startsWith(p)]. *)
Definition startsWith (s p : string) : bool := String.prefix p s.

(** [s.includes(t)]: [t] occurs in [s] at some position. *)
Fixpoint includes (s t : string) : bool :=
  String.prefix t s ||
  match s with
  | EmptyString => false
  | String _ s' => includes s' t
  end.

(** Position of the last occurrence of [t] in the suffix of the string
    that starts at offset [i]. *)
Fixpoint lastIndexOf_from (s t : string) (i : nat) : option nat :=
  match s with
  | EmptyString => if String.prefix t s then Some i else None
  | String _ s' =>
      match lastIndexOf_from s' t (S i) with
      | Some j => Some j
      | None => if String.prefix t s then Some i else None
      end
  end.

(** [s.lastIndexOf(t)]: the position, or [-1] when [t] does not occur. *)
Definition lastIndexOf (s t : string) : Z :=
  match lastIndexOf_from s t 0 with
  | Some j => Z.of_nat j
  | None => (-1)%Z
  end.

(** An index argument of [substring]: negative is 0, beyond the end is
    the length. *)
Definition clampIndex (s : string) (i : Z) : nat :=
  Nat.min (Z.to_nat i) (String.length s).

(** [s.substring(a, b)]: both indices clamped, swapped when [a > b]. *)
Definition substring (s : string) (a b : Z) : string :=
  let a' := clampIndex s a in
  let b' := clampIndex s b in
  String.substring (Nat.min a' b') (Nat.max a' b' - Nat.min a' b') s.

(** [l.join(sep)]. *)
Definition join (l : list string) (sep : string) : string :=
  String.concat sep l.

(** Truthiness of a string: only the empty string is falsy. *)
Definition truthy (s : string) : bool :=
  match s with
  | EmptyString => false
  | String _ _ => true
  end.

(** Truthiness of [string | null | undefined]. *)
Definition truthy_opt (o : option string) : bool :=
  match o with
  | Some s => truthy s
  | None => false
  end.

(** A [string | null | undefined] where the check for truthiness has
    left only [string]. *)
Definition narrowed (o : option string) : string := default "" o.

(** [a || b] on strings where [a] may be undefined. *)
Definition or_else (a : option string) (b : string) : string :=
  match a with
  | Some s => if truthy s then s else b
  | None => b
  end.

(** A [string | null] spliced into a template literal. *)
Definition interpolate (o : option string) : string :=
  match o with
  | Some s => s
  | None => "null"
  end.

(** A settled promise. *)
Inductive Outcome (A : Type) : Type :=
  | Fulfilled (value : A)
  | Rejected (reason : Error).
Global Arguments Fulfilled {A} value.
Global Arguments Rejected {A} reason.

End JS.
Export JS.

(** ** The host: Obsidian's vault and editor, the OpenAI client *)

(** A note of the vault. *)
Record TFile := { path : string }.

(** What [getAbstractFileByPath] can return besides [null]. *)
Inductive TAbstractFile :=
  | AFile (file : TFile)
  | AFolder (folderPath : string).

(** The view the command runs in; [file] is [null] when none is open. *)
Record MarkdownView := { file : option TFile }.

(** One message of a chat request. *)
Record ChatMessage := { role : string; content : string }.

(** The body given to [openai.chat.completions.create]. *)
Record ChatRequest := { model : string; messages : list ChatMessage }.

(** The options given to [new OpenAI(...)]; an option the source leaves
    out is [None]. *)
Record ClientOptions := {
  organization : option string;
  project : option string;
  apiKey : option string
}.

(** A chat completion as far as the plugin looks into it: the choices,
    each with an optional message whose content is a string or [null]. *)
Record ResponseMessage := { message_content : option string }.
Record Choice := { message : option ResponseMessage }.
Record ChatCompletion := { choices : list Choice }.

(** The three variables read from [process.env]. *)
Record ProcessEnv := {
  env_ORG_ID : option string;
  env_PROJECT_ID : option string;
  env_OPENAI_API_KEY : option string
}.

(** Everything the plugin obtains from outside during one command.
    [vault_read k f] is how the [k]-th call of [vault.read] of this
    command settles when it is given [f], so a note may read differently
    each time it is read; every read settles. [settle_order] lists the
    positions of the promises given to [Promise.all] in the order in
    which they settle. *)
Record Host := {
  vault_getFiles : list TFile;
  vault_read : nat -> TFile -> Outcome string;
  vault_getAbstractFileByPath : string -> option TAbstractFile;
  completions_create : ClientOptions -> ChatRequest -> Outcome ChatCompletion;
  process_env : ProcessEnv;
  settle_order : list nat
}.

(** A line on the console. *)
Inductive LogEntry :=
  | LogLine (msg : string)
  | ErrorLine (msg : string) (detail : option Error).

(** A callback registered with [.then] on a pending read in
    [part_001]: the closure [content => { if (content.includes(tag))
    notes.push(file.path) }] with what it captured. *)
Record ThenCallback := {
  then_promise : Outcome string;
  then_tag : string;
  then_path : string;
  then_notes : nat
}.

(** The observable state of one command invocation. [arrays] holds the
    array objects that are shared by reference (an array is named by its
    position); [pending] the [.then] callbacks not yet run. *)
Record World := {
  console : list LogEntry;
  reads : nat;
  requests : list (ClientOptions * ChatRequest);
  editor : list string;
  arrays : list (list string);
  pending : list ThenCallback
}.

Definition emptyWorld : World :=
  {| console := []; reads := 0; requests := []; editor := [];
     arrays := []; pending := [] |}.

(** ** Asynchronous computations *)

Definition Async (A : Type) : Type := World -> Outcome A * World.

Definition ret {A} (a : A) : Async A := fun w => (Fulfilled a, w).

Definition throw {A} (e : Error) : Async A := fun w => (Rejected e, w).

Definition bind {A B} (m : Async A) (k : A -> Async B) : Async B :=
  fun w =>
    match m w with
    | (Fulfilled a, w') => k a w'
    | (Rejected e, w') => (Rejected e, w')
    end.

(** [try { body } catch (error) { handler }]: what [body] did before it
    threw stays done. *)
Definition try_catch {A} (body : Async A) (handler : Error -> Async A) : Async A :=
  fun w =>
    match body w with
    | (Fulfilled a, w') => (Fulfilled a, w')
    | (Rejected e, w') => handler e w'
    end.

(** [await p] on a settled promise. *)
Definition await {A} (p : Outcome A) : Async A := fun w => (p, w).

Declare Scope async_scope.
Delimit Scope async_scope with async.
Notation "x <- m ;; k" := (bind m (fun x => k))
  (at level 100, m at next level, right associativity) : async_scope.
Notation "m ;; k" := (bind m (fun _ => k))
  (at level 100, right associativity) : async_scope.
Local Open Scope async_scope.

(** [l.map(f)] for a callback with effects: the callback runs on each
    element in turn. *)
Fixpoint mapA {A B} (f : A -> Async B) (l : list A) : Async (list B) :=
  match l with
  | [] => ret []
  | x :: l' => y <- f x ;; ys <- mapA f l' ;; ret (y :: ys)
  end.

(** [l.forEach(f)]. *)
Fixpoint forEach {A} (l : list A) (f : A -> Async unit) : Async unit :=
  match l with
  | [] => ret tt
  | x :: l' => f x ;; forEach l' f
  end.

(** *** Effects *)

Definition console_log (msg : string) : Async unit := fun w =>
  (Fulfilled tt,
   {| console := console w ++ [LogLine msg]; reads := reads w;
      requests := requests w; editor := editor w;
      arrays := arrays w; pending := pending w |}).

Definition console_error (msg : string) (detail : option Error) : Async unit := fun w =>
  (Fulfilled tt,
   {| console := console w ++ [ErrorLine msg detail]; reads := reads w;
      requests := requests w; editor := editor w;
      arrays := arrays w; pending := pending w |}).

(** [editor.replaceSelection(text)]. *)
Definition replaceSelection (text : string) : Async unit := fun w =>
  (Fulfilled tt,
   {| console := console w; reads := reads w;
      requests := requests w; editor := editor w ++ [text];
      arrays := arrays w; pending := pending w |}).

(** [this.app.vault.read(file)]: issues the next read and hands back its
    promise. *)
Definition read (h : Host) (f : TFile) : Async (Outcome string) := fun w =>
  (Fulfilled (vault_read h (reads w) f),
   {| console := console w; reads := S (reads w);
      requests := requests w; editor := editor w;
      arrays := arrays w; pending := pending w |}).

(** [vault.read] given what [getAbstractFileByPath] returned, unchecked
    ([part_001]): the vault rejects anything that is not a file. *)
Definition read_unchecked (h : Host) (a : option TAbstractFile)
  : Async (Outcome string) :=
  match a with
  | Some (AFile f) => read h f
  | Some (AFolder _) => ret (Rejected "Error: not a file")
  | None => ret (Rejected "TypeError: Cannot read properties of null")
  end.

(** [await openai.chat.completions.create(request)]. *)
Definition create (h : Host) (openai : ClientOptions) (request : ChatRequest)
  : Async ChatCompletion := fun w =>
  (completions_create h openai request,
   {| console := console w; reads := reads w;
      requests := requests w ++ [(openai, request)]; editor := editor w;
      arrays := arrays w; pending := pending w |}).

(** [const notes: string[] = []]: a fresh array object. *)
Definition newArray : Async nat := fun w =>
  (Fulfilled (length (arrays w)),
   {| console := console w; reads := reads w;
      requests := requests w; editor := editor w;
      arrays := arrays w ++ [[]]; pending := pending w |}).

(** The elements of an array object as they are now. *)
Definition elements (a : nat) : Async (list string) := fun w =>
  (Fulfilled (default [] (arrays w !! a)), w).

(** [promise.then(callback)]: the callback runs once the promise has
    settled, after the code that registered it has run on. *)
Definition then_ (cb : ThenCallback) : Async unit := fun w =>
  (Fulfilled tt,
   {| console := console w; reads := reads w;
      requests := requests w; editor := editor w;
      arrays := arrays w; pending := pending w ++ [cb] |}).

(** *** Promise.all *)

(** The order in which [n] promises settle under a schedule: a position
    settles where the schedule names it last; positions the schedule
    leaves out settle afterwards, in order (every promise settles, and
    only once). *)
Definition settleOrder (schedule : list nat) (n : nat) : list nat :=
  let named := remove_dups (List.filter (fun i => i <? n) schedule) in
  named ++ List.filter (fun i => negb (existsb (Nat.eqb i) named)) (seq 0 n).

(** The bookkeeping of [Promise.all]: one slot per input promise and
    the first rejection seen. *)
Record AllState (A : Type) := {
  values : list (option A);
  rejection : option Error
}.
Global Arguments values {A} _.
Global Arguments rejection {A} _.

(** The promise at position [i] settles: a value goes into slot [i]; a
    rejection is kept unless one came before. *)
Definition onSettle {A} (promises : list (Outcome A)) (s : AllState A) (i : nat)
  : AllState A :=
  match promises !! i with
  | Some (Fulfilled v) =>
      {| values := <[i := Some v]> (values s); rejection := rejection s |}
  | Some (Rejected e) =>
      {| values := values s;
         rejection := match rejection s with Some e0 => Some e0 | None => Some e end |}
  | None => s
  end.

(** [Promise.all(promises)]: rejected with the first rejection to
    arrive, else fulfilled with the array of slots. *)
Definition Promise_all {A} (promises : list (Outcome A)) (schedule : list nat)
  : Outcome (list A) :=
  let start := {| values := replicate (length promises) None; rejection := None |} in
  let final := foldl (onSettle promises) start
                 (settleOrder schedule (length promises)) in
  match rejection final with
  | Some e => Rejected e
  | None => Fulfilled (omap id (values final))
  end.

(** The [.then] callback of [part_001] runs: on a fulfilled read whose
    content has the tag it pushes the path onto the shared array; a
    rejected read has no handler. *)
Definition runCallback (cb : ThenCallback) (w : World) : World :=
  match then_promise cb with
  | Fulfilled content =>
      if includes content (then_tag cb) then
        {| console := console w; reads := reads w;
           requests := requests w; editor := editor w;
           arrays := alter (fun notes => notes ++ [then_path cb]) (then_notes cb) (arrays w);
           pending := pending w |}
      else w
  | Rejected e =>
      {| console := console w ++ [ErrorLine "Uncaught (in promise)" (Some e)];
         reads := reads w; requests := requests w; editor := editor w;
         arrays := arrays w; pending := pending w |}
  end.

(** The pending callbacks run, in the order their promises settle. *)
Definition runPending (schedule : list nat) (w : World) : World :=
  let cbs := pending w in
  let w0 := {| console := console w; reads := reads w;
               requests := requests w; editor := editor w;
               arrays := arrays w; pending := [] |} in
  foldl (fun w i => match cbs !! i with Some cb => runCallback cb w | None => w end)
        w0 (settleOrder schedule (length cbs)).

(** ** src/main.ts *)

Module Main.
Section Plugin.
Context (h : Host).

Definition ORG_ID : string := or_else (env_ORG_ID (process_env h)) "".
Definition PROJECT_ID : string := or_else (env_PROJECT_ID (process_env h)) "".
Definition OPENAI_API_KEY : string := or_else (env_OPENAI_API_KEY (process_env h)) "".

(** The body of [for (const file of files)] with the rest of the loop;
    [notes] is the array filled so far. *)
Fixpoint getNotesWithTag_loop (tag folderPath : string) (files : list TFile)
    (notes : list string) : Async (list string) :=
  match files with
  | [] => ret notes
  | file :: files' =>
      if startsWith (path file) folderPath then
        notes' <- try_catch
          (p <- read h file ;;
           content <- await p ;;
           console_log ("Processing file: " +:+ path file) ;;
           console_log ("File content: " +:+ content) ;;
           if includes content tag then
             console_log ("File contains tag: " +:+ path file) ;;
             ret (notes ++ [path file])
           else ret notes)
          (fun error =>
             console_error ("Error reading file: " +:+ path file) (Some error) ;;
             ret notes) ;;
        getNotesWithTag_loop tag folderPath files' notes'
      else getNotesWithTag_loop tag folderPath files' notes
  end.

(** Fetches notes with the specified tag under a folder. *)
Definition getNotesWithTag (tag folderPath : string) : Async (list string) :=
  let notes := [] in
  let files := vault_getFiles h in
  getNotesWithTag_loop tag folderPath files notes.

(** The callback given to [notes.map]: an [async] function without an
    [await], so it runs to its [return] when called and what it returns
    is the promise. *)
Definition readNote (notePath : string) : Async (Outcome string) :=
  let file := vault_getAbstractFileByPath h notePath in
  match file with
  | Some (AFile file) => read h file
  | _ =>
      console_error ("File not found or not a valid TFile: " +:+ notePath) None ;;
      ret (Fulfilled "")
  end.

(** The prompt built from the contents read. *)
Definition prompt (notesContent : list string) : string :=
  "Uncover relationships between the following notes:" +:+ LF +:+
  join notesContent LF.

(** Uses OpenAI's chat completions API to uncover relationships between
    notes. [new OpenAI(...)] is the record of its options; building
    the client is taken not to throw. *)
Definition generateContent (notes : list string) : Async string :=
  if negb (truthy OPENAI_API_KEY) then
    ret "API Key is not set. Please configure it in the .env file."
  else
    promises <- mapA readNote notes ;;
    notesContent <- await (Promise_all promises (settle_order h)) ;;
    let prompt := prompt notesContent in
    let openai := {| organization := Some ORG_ID;
                     project := Some PROJECT_ID;
                     apiKey := Some OPENAI_API_KEY |} in
    try_catch
      (response <- create h openai
         {| model := "gpt-4o-mini";
            messages := [ {| role := "user"; content := prompt |} ] |} ;;
       let messageContent :=
         c ← choices response !! 0; m ← message c; message_content m in
       if negb (truthy_opt messageContent) then
         console_error "No content returned from OpenAI API." None ;;
         ret "Error generating content. No response content."
       else ret (narrowed messageContent))
      (fun error =>
         console_error "Error calling OpenAI API:" (Some error) ;;
         ret "Error generating content. Please check the console for details.").

(** The [editorCallback] of the command [uncover]. *)
Definition editorCallback (view : MarkdownView) : Async unit :=
  let currentFilePath := path <$> file view in
  match currentFilePath with
  | None => replaceSelection "Could not determine the current file path."
  | Some currentFilePath =>
      if negb (truthy currentFilePath) then
        replaceSelection "Could not determine the current file path."
      else
        let folderPath :=
          substring currentFilePath 0 (lastIndexOf currentFilePath "/") in
        console_log ("Searching in folder: " +:+ folderPath) ;;
        relatedNotes <- getNotesWithTag "&uncover" folderPath ;;
        if length relatedNotes =? 0 then
          replaceSelection "No related notes with the &uncover tag found."
        else
          relationships <- generateContent relatedNotes ;;
          replaceSelection
            (LF +:+ "## Relationships Uncovered:" +:+ LF +:+ relationships)
  end.

End Plugin.
End Main.

(** ** src/unnamed/part_000: the key comes from the plugin's settings *)

Module Part000.

Record MyPluginSettings := { settings_apiKey : string }.

Definition DEFAULT_SETTINGS : MyPluginSettings := {| settings_apiKey := "" |}.

Section Plugin.
Context (h : Host) (settings : MyPluginSettings).

Fixpoint getNotesWithTag_loop (tag folderPath : string) (files : list TFile)
    (notes : list string) : Async (list string) :=
  match files with
  | [] => ret notes
  | file :: files' =>
      if startsWith (path file) folderPath then
        notes' <- try_catch
          (p <- read h file ;;
           content <- await p ;;
           console_log ("Processing file: " +:+ path file) ;;
           if includes content tag then
             console_log ("File contains tag: " +:+ path file) ;;
             ret (notes ++ [path file])
           else ret notes)
          (fun error =>
             console_error ("Error reading file: " +:+ path file) (Some error) ;;
             ret notes) ;;
        getNotesWithTag_loop tag folderPath files' notes'
      else getNotesWithTag_loop tag folderPath files' notes
  end.

Definition getNotesWithTag (tag folderPath : string) : Async (list string) :=
  let notes := [] in
  let files := vault_getFiles h in
  getNotesWithTag_loop tag folderPath files notes.

Definition readNote (notePath : string) : Async (Outcome string) :=
  let file := vault_getAbstractFileByPath h notePath in
  match file with
  | Some (AFile file) => read h file
  | _ =>
      console_error ("File not found or not a valid TFile: " +:+ notePath) None ;;
      ret (Fulfilled "")
  end.

Definition prompt (notesContent : list string) : string :=
  "Uncover relationships between the following notes:" +:+ LF +:+
  join notesContent LF.

Definition generateContent (notes : list string) : Async string :=
  if negb (truthy (settings_apiKey settings)) then
    ret "API Key is not set. Please configure it in the plugin settings."
  else
    promises <- mapA readNote notes ;;
    notesContent <- await (Promise_all promises (settle_order h)) ;;
    let prompt := prompt notesContent in
    let openai := {| organization := None;
                     project := None;
                     apiKey := Some (settings_apiKey settings) |} in
    try_catch
      (response <- create h openai
         {| model := "gpt-4o-mini";
            messages := [ {| role := "user"; content := prompt |} ] |} ;;
       let messageContent :=
         c ← choices response !! 0; m ← message c; message_content m in
       if negb (truthy_opt messageContent) then
         console_error "No content returned from OpenAI API." None ;;
         ret "Error generating content. No response content."
       else ret (narrowed messageContent))
      (fun error =>
         console_error "Error calling OpenAI API:" (Some error) ;;
         ret "Error generating content. Please check the console for details.").

Definition editorCallback (view : MarkdownView) : Async unit :=
  if negb (truthy (settings_apiKey settings)) then
    replaceSelection "API Key is not set. Please configure it in the plugin settings."
  else
    let currentFilePath := path <$> file view in
    match currentFilePath with
    | None => replaceSelection "Could not determine the current file path."
    | Some currentFilePath =>
        if negb (truthy currentFilePath) then
          replaceSelection "Could not determine the current file path."
        else
          let folderPath :=
            substring currentFilePath 0 (lastIndexOf currentFilePath "/") in
          console_log ("Searching in folder: " +:+ folderPath) ;;
          relatedNotes <- getNotesWithTag "&uncover" folderPath ;;
          if length relatedNotes =? 0 then
            replaceSelection "No related notes with the &uncover tag found."
          else
            relationships <- generateContent relatedNotes ;;
            replaceSelection
              (LF +:+ "## Relationships Uncovered:" +:+ LF +:+ relationships)
    end.

End Plugin.
End Part000.

(** ** src/unnamed/part_001: reads that nobody waits for *)

Module Part001.
Section Plugin.
Context (h : Host).

Definition ORG_ID : string := or_else (env_ORG_ID (process_env h)) "".
Definition PROJECT_ID : string := or_else (env_PROJECT_ID (process_env h)) "".
Definition OPENAI_API_KEY : string := or_else (env_OPENAI_API_KEY (process_env h)) "".

(** Fetches notes with the specified tag under a folder: each read is
    issued with a [.then] callback and the array is returned at once. *)
Definition getNotesWithTag (tag folderPath : string) : Async nat :=
  notes <- newArray ;;
  forEach (vault_getFiles h) (fun file =>
    if startsWith (path file) folderPath then
      p <- read h file ;;
      then_ {| then_promise := p; then_tag := tag;
               then_path := path file; then_notes := notes |}
    else ret tt) ;;
  ret notes.

Definition prompt (notesContent : list string) : string :=
  "Uncover relationships between the following notes:" +:+ LF +:+
  join notesContent LF.

(** The result is [null] when the first choice's content is. *)
Definition generateContent (notes : list string) : Async (option string) :=
  if negb (truthy OPENAI_API_KEY) then
    ret (Some "API Key is not set. Please configure it in the .env file.")
  else
    promises <- mapA (fun notePath =>
                  read_unchecked h (vault_getAbstractFileByPath h notePath)) notes ;;
    notesContent <- await (Promise_all promises (settle_order h)) ;;
    let prompt := prompt notesContent in
    let openai := {| organization := Some ORG_ID;
                     project := Some PROJECT_ID;
                     apiKey := None |} in
    try_catch
      (response <- create h openai
         {| model := "gpt-4o-mini";
            messages := [ {| role := "user"; content := prompt |} ] |} ;;
       match choices response !! 0 with
       | None => throw "TypeError: Cannot read properties of undefined (reading 'message')"
       | Some c =>
           match message c with
           | None => throw "TypeError: Cannot read properties of undefined (reading 'content')"
           | Some m => ret (message_content m)
           end
       end)
      (fun error =>
         console_error "Error calling OpenAI API:" (Some error) ;;
         ret (Some "Error generating content. Please check the console for details.")).

Definition editorCallback (view : MarkdownView) : Async unit :=
  match file view with
  | None => throw "TypeError: Cannot read properties of null (reading 'path')"
  | Some file =>
      let currentFilePath := path file in
      let folderPath :=
        substring currentFilePath 0 (lastIndexOf currentFilePath "/") in
      relatedNotes <- getNotesWithTag "#uncover" folderPath ;;
      now <- elements relatedNotes ;;
      if length now =? 0 then
        replaceSelection "No related notes with the #uncover tag found."
      else
        relationships <- (now <- elements relatedNotes ;; generateContent now) ;;
        replaceSelection
          (LF +:+ "## Relationships Uncovered:" +:+ LF +:+ interpolate relationships)
  end.

End Plugin.
End Part001.

(** ** What the specification says of discovery

    The specification's Note Locator: the notes of the store whose path
    starts with the folder scope, each with its content as read, kept
    when the content contains the tag; paths in enumeration order.
    [k0] counts the reads issued before the scan, so that the [k]-th
    note in scope is read by read number [k0 + k]. *)

Definition inScope (folderScope : string) (store : list TFile) : list TFile :=
  List.filter (fun note => startsWith (path note) folderScope) store.

Definition contentsAsRead (h : Host) (k0 : nat) (notes : list TFile)
  : list (TFile * Outcome string) :=
  imap (fun k note => (note, vault_read h (k0 + k) note)) notes.

Definition containsTag (tag : string) (entry : TFile * Outcome string) : bool :=
  match entry.2 with
  | Fulfilled text => includes text tag
  | Rejected _ => false
  end.

Definition locate_spec (h : Host) (tag folderScope : string) (k0 : nat)
    (store : list TFile) : list string :=
  map (fun entry => path entry.1)
      (List.filter (containsTag tag)
         (contentsAsRead h k0 (inScope folderScope store))).

(** ** Vocabulary for the statements *)

(** The world after more console lines and [n] more reads. *)
Definition advance (w : World) (lines : list LogEntry) (n : nat) : World :=
  {| console := console w ++ lines; reads := n + reads w;
     requests := requests w; editor := editor w;
     arrays := arrays w; pending := pending w |}.

(** The world after one more request to the provider. *)
Definition sent (w : World) (request : ClientOptions * ChatRequest) : World :=
  {| console := console w; reads := reads w;
     requests := requests w ++ [request]; editor := editor w;
     arrays := arrays w; pending := pending w |}.

(** The world after one more insertion in the editor. *)
Definition inserted (w : World) (text : string) : World :=
  {| console := console w; reads := reads w;
     requests := requests w; editor := editor w ++ [text];
     arrays := arrays w; pending := pending w |}.

(** [file && file instanceof TFile]. *)
Definition resolve (h : Host) (notePath : string) : option TFile :=
  match vault_getAbstractFileByPath h notePath with
  | Some (AFile f) => Some f
  | _ => None
  end.

(** The promises [notes.map] yields in [generateContent], one per input
    position, when [k] reads were issued before: a path that resolves
    takes the next read, one that does not is the empty string. *)
Fixpoint slots (h : Host) (k : nat) (notes : list string) : list (Outcome string) :=
  match notes with
  | [] => []
  | notePath :: notes' =>
      match resolve h notePath with
      | Some f => vault_read h k f :: slots h (S k) notes'
      | None => Fulfilled "" :: slots h k notes'
      end
  end.

(** The console lines of that [map]. *)
Fixpoint unresolvedLines (h : Host) (notes : list string) : list LogEntry :=
  match notes with
  | [] => []
  | notePath :: notes' =>
      match resolve h notePath with
      | Some _ => unresolvedLines h notes'
      | None =>
          ErrorLine ("File not found or not a valid TFile: " +:+ notePath) None
          :: unresolvedLines h notes'
      end
  end.

(** How many of the paths resolve, hence how many reads are issued. *)
Definition resolved (h : Host) (notes : list string) : nat :=
  length (List.filter (fun p => bool_decide (is_Some (resolve h p))) notes).

(** The first choice's message content, [choices[0]?.message?.content]. *)
Definition firstContent (response : ChatCompletion) : option string :=
  c ← choices response !! 0; m ← message c; message_content m.

(** The request [generateContent] sends for a prompt. *)
Definition userRequest (prompt : string) : ChatRequest :=
  {| model := "gpt-4o-mini";
     messages := [ {| role := "user"; content := prompt |} ] |}.

(** The four fixed texts. *)
Definition MISSING_KEY_ENV : string :=
  "API Key is not set. Please configure it in the .env file.".
Definition MISSING_KEY_SETTINGS : string :=
  "API Key is not set. Please configure it in the plugin settings.".
Definition NO_RESPONSE_CONTENT : string :=
  "Error generating content. No response content.".
Definition PROVIDER_FAILURE : string :=
  "Error generating content. Please check the console for details.".
Definition NO_RELATED_NOTES : string :=
  "No related notes with the &uncover tag found.".

(** The client built by [src/main.ts]. *)
Definition Main_client (h : Host) : ClientOptions :=
  {| organization := Some (Main.ORG_ID h);
     project := Some (Main.PROJECT_ID h);
     apiKey := Some (Main.OPENAI_API_KEY h) |}.

(** The client built by [part_000]. *)
Definition Part000_client (settings : Part000.MyPluginSettings) : ClientOptions :=
  {| organization := None; project := None;
     apiKey := Some (Part000.settings_apiKey settings) |}.

(** What [generateContent] of [src/main.ts] and of [part_000] makes of
    the provider's answer: the text returned and the line written to
    the console, if any. *)
Definition reply (answer : Outcome ChatCompletion) : string * list LogEntry :=
  match answer with
  | Fulfilled response =>
      if truthy_opt (firstContent response)
      then (narrowed (firstContent response), [])
      else (NO_RESPONSE_CONTENT,
            [ErrorLine "No content returned from OpenAI API." None])
  | Rejected e =>
      (PROVIDER_FAILURE, [ErrorLine "Error calling OpenAI API:" (Some e)])
  end.

(** The same host under another order of settlement. *)
Definition reschedule (h : Host) (schedule : list nat) : Host :=
  {| vault_getFiles := vault_getFiles h;
     vault_read := vault_read h;
     vault_getAbstractFileByPath := vault_getAbstractFileByPath h;
     completions_create := completions_create h;
     process_env := process_env h;
     settle_order := schedule |}.

(** ** A sample vault

    The store of the specification's end-to-end scenario: two tagged
    notes under [/proj], one under [/other], and the note the command is
    run from. *)

Module Sample.

Definition note1 : TFile := {| path := "/proj/note1.md" |}.
Definition note2 : TFile := {| path := "/proj/note2.md" |}.
Definition note3 : TFile := {| path := "/other/note3.md" |}.
Definition current : TFile := {| path := "/proj/current.md" |}.

Definition store : list TFile := [note1; note2; note3; current].

Definition text (f : TFile) : string :=
  if String.eqb (path f) "/proj/note1.md" then "...&uncover..."
  else if String.eqb (path f) "/proj/current.md" then "draft &uncover"
  else "&uncover".

Definition lookup (p : string) : option TAbstractFile :=
  if existsb (fun f => String.eqb (path f) p) store
  then Some (AFile {| path := p |})
  else if String.eqb p "/proj" then Some (AFolder "/proj") else None.

Definition answer : ChatCompletion :=
  {| choices :=
       [ {| message := Some {| message_content := Some "A relates to B via X" |} |} ] |}.

Definition env : ProcessEnv :=
  {| env_ORG_ID := None; env_PROJECT_ID := None;
     env_OPENAI_API_KEY := Some "sk-test" |}.

(** Every read succeeds and the provider answers. *)
Definition host : Host :=
  {| vault_getFiles := store;
     vault_read := fun _ f => Fulfilled (text f);
     vault_getAbstractFileByPath := lookup;
     completions_create := fun _ _ => Fulfilled answer;
     process_env := env;
     settle_order := [1; 0] |}.

(** The same, but [note2] cannot be read. *)
Definition unreadable : Host :=
  {| vault_getFiles := store;
     vault_read := fun _ f =>
       if String.eqb (path f) "/proj/note2.md"
       then Rejected "EACCES: permission denied"
       else Fulfilled (text f);
     vault_getAbstractFileByPath := lookup;
     completions_create := fun _ _ => Fulfilled answer;
     process_env := env;
     settle_order := [1; 0] |}.

(** The same as [host], but no key in the environment. *)
Definition keyless : Host :=
  {| vault_getFiles := store;
     vault_read := fun _ f => Fulfilled (text f);
     vault_getAbstractFileByPath := lookup;
     completions_create := fun _ _ => Fulfilled answer;
     process_env :=
       {| env_ORG_ID := None; env_PROJECT_ID := None; env_OPENAI_API_KEY := None |};
     settle_order := [] |}.

(** The same as [host], but the provider answers without choices. *)
Definition speechless : Host :=
  {| vault_getFiles := store;
     vault_read := fun _ f => Fulfilled (text f);
     vault_getAbstractFileByPath := lookup;
     completions_create := fun _ _ => Fulfilled {| choices := [] |};
     process_env := env;
     settle_order := [] |}.

(** A vault where nothing carries the tag. *)
Definition untagged : Host :=
  {| vault_getFiles := store;
     vault_read := fun _ _ => Fulfilled "nothing here";
     vault_getAbstractFileByPath := lookup;
     completions_create := fun _ _ => Fulfilled answer;
     process_env := env;
     settle_order := [] |}.

Definition settings : Part000.MyPluginSettings :=
  {| Part000.settings_apiKey := "sk-test" |}.

Definition view : MarkdownView := {| file := Some current |}.

End Sample.

(** The folder the command searches: the current path up to its last
    [/]. *)
Definition folderOf (currentFilePath : string) : string :=
  substring currentFilePath 0 (lastIndexOf currentFilePath "/").

(** The world in which the command of [src/main.ts] and [part_000]
    starts discovery. *)
Definition searching (w : World) (folderPath : string) : World :=
  advance w [LogLine ("Searching in folder: " +:+ folderPath)] 0.

(** What is inserted on success. *)
Definition uncovered (relationships : string) : string :=
  LF +:+ "## Relationships Uncovered:" +:+ LF +:+ relationships.

(** The command, run from the note [current] in world [w] with
    discovery [locate], reports the absence of tagged notes exactly when
    there are none: discovery is fulfilled with some paths; they are
    empty if and only if no note in scope was read with the tag in its
    content; if they are empty the command ends right after discovery by
    inserting the fixed message, with no request sent to the provider;
    if they are not, what the command inserts, if anything, is not that
    message. *)
Definition reports_absence (h : Host)
    (locate : string -> string -> Async (list string))
    (command : MarkdownView -> Async unit)
    (view : MarkdownView) (current : TFile) (w : World) : Prop :=
  let F := folderOf (path current) in
  exists notes w1,
    locate "&uncover" F (searching w F) = (Fulfilled notes, w1) /\
    (notes = [] <->
     forall k note text,
       inScope F (vault_getFiles h) !! k = Some note ->
       vault_read h (reads w + k) note = Fulfilled text ->
       includes text "&uncover" = false) /\
    (notes = [] ->
     command view w = (Fulfilled tt, inserted w1 NO_RELATED_NOTES) /\
     requests w1 = requests w /\ editor w1 = editor w) /\
    (notes <> [] ->
     editor (command view w).2 <> editor w ++ [NO_RELATED_NOTES]).

(** The [.then] callbacks [getNotesWithTag] of [part_001] registers:
    one per note in scope, on the promise of its read, all pushing onto
    the array [notes]. *)
Definition callbacks (h : Host) (tag folderPath : string) (notes k0 : nat)
    (store : list TFile) : list ThenCallback :=
  map (fun entry : TFile * Outcome string =>
         {| then_promise := entry.2; then_tag := tag;
            then_path := path entry.1; then_notes := notes |})
      (contentsAsRead h k0 (inScope folderPath store)).

(** The world after a fresh empty array, [n] more reads and more
    callbacks registered. *)
Definition registered (w : World) (cbs : list ThenCallback) (n : nat) : World :=
  {| console := console w; reads := n + reads w;
     requests := requests w; editor := editor w;
     arrays := arrays w ++ [[]]; pending := pending w ++ cbs |}.

(** ** src/unnamed/part_000: the settings and their tab *)

Module Settings.

(** White space and line terminators as [trim] sees them, among the
    code units a [string] here can hold: tab to carriage return, space,
    no-break space. *)
Definition isWhiteSpace (c : ascii) : bool :=
  let n := nat_of_ascii c in
  ((9 <=? n) && (n <=? 13)) || (n =? 32) || (n =? 160).

(** [s.trimStart()]. *)
Fixpoint trimStart (s : string) : string :=
  match s with
  | EmptyString => EmptyString
  | String c s' => if isWhiteSpace c then trimStart s' else s
  end.

(** [s.trimEnd()]. *)
Fixpoint trimEnd (s : string) : string :=
  match s with
  | EmptyString => EmptyString
  | String c s' =>
      match trimEnd s' with
      | EmptyString => if isWhiteSpace c then EmptyString else String c EmptyString
      | t => String c t
      end
  end.

(** [s.trim()]. *)
Definition trim (s : string) : string := trimEnd (trimStart s).

(** The object kept in the plugin's data file; it may lack the key. *)
Record StoredData := { stored_apiKey : option string }.

(** The plugin between commands: its settings in memory, what
    [loadData] would resolve to ([null] without a data file), and the
    console. *)
Record Plugin := {
  settings : Part000.MyPluginSettings;
  data : option StoredData;
  tab_console : list LogEntry
}.

(** [Object.assign({}, defaults, loaded)]. *)
Definition assign (defaults : Part000.MyPluginSettings) (loaded : option StoredData)
  : Part000.MyPluginSettings :=
  match loaded with
  | Some {| stored_apiKey := Some key |} => {| Part000.settings_apiKey := key |}
  | _ => defaults
  end.

Section Tab.
(** How [saveData] settles when given the settings. *)
Context (saveData : Part000.MyPluginSettings -> Outcome unit).

Definition loadSettings (p : Plugin) : Outcome unit * Plugin :=
  (Fulfilled tt,
   {| settings := assign Part000.DEFAULT_SETTINGS (data p);
      data := data p; tab_console := tab_console p |}).

Definition saveSettings (p : Plugin) : Outcome unit * Plugin :=
  match saveData (settings p) with
  | Fulfilled _ =>
      (Fulfilled tt,
       {| settings := settings p;
          data := Some {| stored_apiKey :=
                            Some (Part000.settings_apiKey (settings p)) |};
          tab_console := tab_console p |})
  | Rejected e => (Rejected e, p)
  end.

(** The [onChange] of the key's text field. *)
Definition onChange (value : string) (p : Plugin) : Outcome unit * Plugin :=
  let p1 := {| settings := {| Part000.settings_apiKey := trim value |};
               data := data p; tab_console := tab_console p |} in
  match saveSettings p1 with
  | (Fulfilled _, p2) =>
      (Fulfilled tt,
       {| settings := settings p2; data := data p2;
          tab_console :=
            tab_console p2 ++
            [LogLine ("API Key updated: " +:+
                      Part000.settings_apiKey (settings p2))] |})
  | (Rejected e, p2) => (Rejected e, p2)
  end.

End Tab.

(** Only white space. *)
Fixpoint blank (s : string) : bool :=
  match s with
  | EmptyString => true
  | String c s' => isWhiteSpace c && blank s'
  end.

(** No white space at all. *)
Fixpoint solid (s : string) : bool :=
  match s with
  | EmptyString => true
  | String c s' => negb (isWhiteSpace c) && solid s'
  end.

End Settings.

(** ** More vocabulary *)


(** The paths the callbacks of [part_001] push when they run in the
    order [order]. *)
Definition pushes (cbs : list ThenCallback) (order : list nat) : list string :=
  then_path <$>
  List.filter
    (fun cb => match then_promise cb with
               | Fulfilled text => includes text (then_tag cb)
               | Rejected _ => false
               end)
    (omap (fun i => cbs !! i) order).

(** * Properties *)

(** ** Strings *)

Lemma prefix_app (p rest : string) : String.prefix p (p +:+ rest) = true.
Proof.
  induction p as [|c p IH]; simpl.
  - by destruct rest.
  - destruct (Ascii.ascii_dec c c); [exact IH | done].
Qed.

Lemma prefix_inv (p s : string) :
  String.prefix p s = true -> exists rest, s = p +:+ rest.
Proof.
  revert s. induction p as [|c p IH]; intros s H.
  - by exists s.
  - destruct s as [|d s]; simpl in H; [done|].
    destruct (Ascii.ascii_dec c d) as [->|]; [|done].
    destruct (IH _ H) as [rest ->]. by exists rest.
Qed.

(** [startsWith] is the prefix test on characters. *)
Lemma startsWith_spec (s p : string) :
  startsWith s p = true <-> exists rest, s = p +:+ rest.
Proof.
  unfold startsWith. split.
  - apply prefix_inv.
  - intros [rest ->]. apply prefix_app.
Qed.

Lemma append_assoc (a b c : string) : (a +:+ b) +:+ c = a +:+ (b +:+ c).
Proof.
  induction a as [|x a IH]; [done|].
  change (String x ((a +:+ b) +:+ c) = String x (a +:+ (b +:+ c))).
  by rewrite IH.
Qed.

Lemma includes_unfold (s t : string) :
  includes s t =
  String.prefix t s ||
  match s with EmptyString => false | String _ s' => includes s' t end.
Proof. by destruct s. Qed.

(** [includes] is literal substring containment. *)
Lemma includes_spec (s t : string) :
  includes s t = true <-> exists pre post, s = pre +:+ t +:+ post.
Proof.
  split.
  - induction s as [|c s IH]; rewrite includes_unfold; intros H.
    + rewrite orb_false_r in H. destruct (prefix_inv _ _ H) as [rest Hr].
      by exists "", rest.
    + apply orb_true_iff in H as [H|H].
      * destruct (prefix_inv _ _ H) as [rest Hr]. by exists "", rest.
      * destruct (IH H) as (pre & post & ->). by exists (String c pre), post.
  - intros (pre & post & ->). induction pre as [|c pre IH].
    + rewrite includes_unfold.
      change ("" +:+ t +:+ post) with (t +:+ post). by rewrite prefix_app.
    + change (String c pre +:+ t +:+ post) with (String c (pre +:+ t +:+ post)).
      rewrite includes_unfold, IH. apply orb_true_r.
Qed.

Lemma prefix_substring (k : nat) (s : string) :
  String.prefix (String.substring 0 k s) s = true.
Proof.
  revert k. induction s as [|c s IH]; intros [|k]; simpl; try done.
  destruct (Ascii.ascii_dec c c); [apply IH | done].
Qed.

(** The folder derived from a path is a prefix of that path. *)
Lemma startsWith_folder (p : string) (i : Z) :
  startsWith p (substring p 0 i) = true.
Proof.
  unfold startsWith, substring, clampIndex. simpl.
  rewrite Nat.sub_0_r. apply prefix_substring.
Qed.

(** ** Worlds *)

Lemma advance_nothing (w : World) : advance w [] 0 = w.
Proof.
  destruct w. unfold advance. simpl. by rewrite app_nil_r.
Qed.

(** ** Discovery *)

Lemma contentsAsRead_cons h k0 note notes :
  contentsAsRead h k0 (note :: notes) =
  (note, vault_read h k0 note) :: contentsAsRead h (S k0) notes.
Proof.
  unfold contentsAsRead. rewrite imap_cons, Nat.add_0_r. f_equal.
  apply imap_ext. intros i x _. simpl. f_equal. f_equal. lia.
Qed.

Lemma locate_spec_nil h tag F k : locate_spec h tag F k [] = [].
Proof. done. Qed.

Lemma locate_spec_cons h tag F k note store :
  locate_spec h tag F k (note :: store) =
  if startsWith (path note) F then
    (if containsTag tag (note, vault_read h k note) then [path note] else [])
    ++ locate_spec h tag F (S k) store
  else locate_spec h tag F k store.
Proof.
  unfold locate_spec, inScope. simpl.
  destruct (startsWith (path note) F); [|done].
  rewrite contentsAsRead_cons. simpl.
  by destruct (containsTag tag (note, vault_read h k note)).
Qed.

Lemma inScope_cons F note store :
  inScope F (note :: store) =
  if startsWith (path note) F then note :: inScope F store else inScope F store.
Proof. done. Qed.

Ltac run :=
  unfold bind, try_catch, ret, await, throw, read, create, console_log,
    console_error, replaceSelection; simpl.

(** Closes a case of the loop once the body has run: the rest of the
    loop is the induction hypothesis. *)
Ltac rest_of_loop IH loop :=
  match goal with
  | |- context [loop ?n ?w'] => destruct (IH n w') as [lines ->]
  end;
  eexists; f_equal;
  first
    [ unfold advance; simpl; f_equal; [rewrite <- !app_assoc; reflexivity | lia]
    | simpl; rewrite <- ?app_assoc; reflexivity ].

(** The loop of [src/main.ts] returns what it was given plus what the
    specification selects from the files left, and only writes to the
    console and reads. *)
Lemma Main_loop_run h tag F files : forall notes w,
  exists lines,
    Main.getNotesWithTag_loop h tag F files notes w =
    (Fulfilled (notes ++ locate_spec h tag F (reads w) files),
     advance w lines (length (inScope F files))).
Proof.
  induction files as [|file files IH]; intros notes w.
  - exists []. simpl. by rewrite app_nil_r, advance_nothing.
  - rewrite locate_spec_cons, inScope_cons. cbn [Main.getNotesWithTag_loop].
    destruct (startsWith (path file) F) eqn:HF.
    + unfold bind at 1, try_catch at 1. unfold bind at 1, read at 1.
      unfold containsTag. simpl.
      destruct (vault_read h (reads w) file) as [content|e] eqn:HR; run;
        [destruct (includes content tag) eqn:HI; run|];
        rest_of_loop IH (Main.getNotesWithTag_loop h tag F files).
    + destruct (IH notes w) as [lines ->]. by exists lines.
Qed.

(** The loop of [part_000] differs by one console line. *)
Lemma Part000_loop_run h tag F files : forall notes w,
  exists lines,
    Part000.getNotesWithTag_loop h tag F files notes w =
    (Fulfilled (notes ++ locate_spec h tag F (reads w) files),
     advance w lines (length (inScope F files))).
Proof.
  induction files as [|file files IH]; intros notes w.
  - exists []. simpl. by rewrite app_nil_r, advance_nothing.
  - rewrite locate_spec_cons, inScope_cons. cbn [Part000.getNotesWithTag_loop].
    destruct (startsWith (path file) F) eqn:HF.
    + unfold bind at 1, try_catch at 1. unfold bind at 1, read at 1.
      unfold containsTag. simpl.
      destruct (vault_read h (reads w) file) as [content|e] eqn:HR; run;
        [destruct (includes content tag) eqn:HI; run|];
        rest_of_loop IH (Part000.getNotesWithTag_loop h tag F files).
    + destruct (IH notes w) as [lines ->]. by exists lines.
Qed.

Lemma Main_getNotesWithTag_run h tag F w :
  exists lines,
    Main.getNotesWithTag h tag F w =
    (Fulfilled (locate_spec h tag F (reads w) (vault_getFiles h)),
     advance w lines (length (inScope F (vault_getFiles h)))).
Proof. apply (Main_loop_run h tag F (vault_getFiles h) [] w). Qed.

Lemma Part000_getNotesWithTag_run h tag F w :
  exists lines,
    Part000.getNotesWithTag h tag F w =
    (Fulfilled (locate_spec h tag F (reads w) (vault_getFiles h)),
     advance w lines (length (inScope F (vault_getFiles h)))).
Proof. apply (Part000_loop_run h tag F (vault_getFiles h) [] w). Qed.

(** A path the specification selects belongs to a note in scope whose
    read brought content with the tag. *)
Lemma locate_spec_elem h tag F k0 store p :
  p ∈ locate_spec h tag F k0 store <->
  exists k note text,
    inScope F store !! k = Some note /\ path note = p /\
    vault_read h (k0 + k) note = Fulfilled text /\ includes text tag = true.
Proof.
  unfold locate_spec. rewrite list_elem_of_In, in_map_iff. split.
  - intros ([note o] & <- & Hin). apply filter_In in Hin as [Hin Htag].
    apply list_elem_of_In, list_elem_of_lookup in Hin as [k Hk].
    unfold contentsAsRead in Hk. rewrite list_lookup_imap in Hk.
    destruct (inScope F store !! k) as [note'|] eqn:Hn; [|done].
    simpl in Hk. injection Hk as -> <-.
    unfold containsTag in Htag. simpl in Htag.
    destruct (vault_read h (k0 + k) note) as [text|] eqn:Hr; [|done].
    by exists k, note, text.
  - intros (k & note & text & Hk & <- & Hr & Ht).
    exists (note, Fulfilled text). split; [done|]. apply filter_In. split.
    + apply list_elem_of_In, list_elem_of_lookup. exists k.
      unfold contentsAsRead. rewrite list_lookup_imap, Hk. simpl. by rewrite Hr.
    + unfold containsTag. by simpl.
Qed.

Lemma inScope_elem F store note :
  note ∈ inScope F store <-> note ∈ store /\ startsWith (path note) F = true.
Proof. unfold inScope. by rewrite !list_elem_of_In, filter_In. Qed.

Lemma inScope_app F l1 l2 : inScope F (l1 ++ l2) = inScope F l1 ++ inScope F l2.
Proof. apply List.filter_app. Qed.

Lemma locate_spec_app h tag F l1 : forall k l2,
  locate_spec h tag F k (l1 ++ l2) =
  locate_spec h tag F k l1 ++
  locate_spec h tag F (length (inScope F l1) + k) l2.
Proof.
  induction l1 as [|note l1 IH]; intros k l2; [done|].
  rewrite <- app_comm_cons, !locate_spec_cons, inScope_cons.
  destruct (startsWith (path note) F); [|apply IH].
  rewrite IH, <- app_assoc. simpl length.
  by replace (length (inScope F l1) + S k) with (S (length (inScope F l1)) + k) by lia.
Qed.

(** ** Promise.all *)

Lemma settleOrder_covers (schedule : list nat) (n i : nat) :
  i < n -> i ∈ settleOrder schedule n.
Proof.
  intros Hi. unfold settleOrder.
  set (named := remove_dups (List.filter (fun i => i <? n) schedule)).
  destruct (existsb (Nat.eqb i) named) eqn:E.
  - apply existsb_exists in E as (x & Hx & Hix).
    apply Nat.eqb_eq in Hix as <-. apply elem_of_app. left.
    by apply list_elem_of_In.
  - apply elem_of_app. right. apply list_elem_of_In, filter_In. split.
    + apply in_seq. lia.
    + by rewrite E.
Qed.

Lemma remove_dups_NoDup {A} `{EqDecision A} (l : list A) :
  NoDup l -> remove_dups l = l.
Proof.
  induction 1 as [|x l Hx _ IH]; simpl; [done|].
  destruct (decide_rel elem_of x l); [done | by rewrite IH].
Qed.

(** A schedule that names every position once is the order of
    settlement itself: every order in which the promises can settle is
    the [settleOrder] of some schedule. *)
Lemma settleOrder_permutation (schedule : list nat) (n : nat) :
  NoDup schedule -> (forall i, i ∈ schedule <-> i < n) ->
  settleOrder schedule n = schedule.
Proof.
  intros Hnodup Hrange. unfold settleOrder.
  rewrite forallb_filter_id.
  - rewrite (remove_dups_NoDup _ Hnodup).
    rewrite (filter_ext_in _ (fun _ => false)), filter_false; [apply app_nil_r|].
    intros i Hi. apply in_seq in Hi. apply negb_false_iff, existsb_exists.
    exists i. split; [|apply Nat.eqb_refl].
    apply list_elem_of_In, Hrange. lia.
  - apply forallb_forall. intros i Hi.
    apply Nat.ltb_lt, Hrange. by apply list_elem_of_In.
Qed.

Section PromiseAll.
Context {A : Type}.
Implicit Types (ps : list (Outcome A)) (cs : list A) (s : AllState A).

(** While only fulfilled promises settle, a slot that was written holds
    the value of the promise at its position. *)
Lemma settle_fulfilled cs (order : list nat) s0 :
  rejection s0 = None ->
  length (values s0) = length cs ->
  let s := foldl (onSettle (Fulfilled <$> cs)) s0 order in
  rejection s = None /\ length (values s) = length cs /\
  forall i, i ∈ order -> i < length cs -> values s !! i = Some <$> (cs !! i).
Proof.
  intros Hr Hl. induction order as [|i order IH] using rev_ind; simpl.
  - repeat split; try done. intros i Hi. by apply elem_of_nil in Hi.
  - rewrite foldl_app. simpl.
    destruct IH as (IHr & IHl & IHv).
    set (s1 := foldl (onSettle (Fulfilled <$> cs)) s0 order) in *.
    unfold onSettle. rewrite list_lookup_fmap.
    destruct (cs !! i) as [c|] eqn:Hc; simpl.
    + repeat split; try done.
      * by rewrite length_insert.
      * intros j Hj Hlt. destruct (decide (i = j)) as [->|Hne].
        -- rewrite list_lookup_insert_eq by lia. by rewrite Hc.
        -- rewrite list_lookup_insert_ne by done.
           apply elem_of_app in Hj as [Hj|Hj]; [by apply IHv|].
           apply list_elem_of_singleton in Hj. congruence.
    + repeat split; try done.
      intros j Hj Hlt. apply elem_of_app in Hj as [Hj|Hj]; [by apply IHv|].
      apply list_elem_of_singleton in Hj. subst j.
      apply lookup_ge_None in Hc. lia.
Qed.

(** When every promise is fulfilled, [Promise.all] is fulfilled with
    the values in the order of the promises, whatever the order in
    which they settle. *)
Lemma Promise_all_fulfilled cs (schedule : list nat) :
  Promise_all (Fulfilled <$> cs) schedule = Fulfilled cs.
Proof.
  unfold Promise_all. rewrite length_fmap.
  destruct (settle_fulfilled cs (settleOrder schedule (length cs))
              {| values := replicate (length cs) None; rejection := None |})
    as (Hr & Hl & Hv); [done | simpl; by rewrite length_replicate |].
  rewrite Hr. f_equal.
  set (s := foldl _ _ _) in *.
  assert (values s = Some <$> cs) as ->.
  { apply list_eq. intros i. rewrite list_lookup_fmap.
    destruct (decide (i < length cs)) as [Hi|Hi].
    - apply Hv; [|done]. by apply settleOrder_covers.
    - rewrite !lookup_ge_None_2; [done | lia | lia]. }
  clear. induction cs as [|c cs IH]; [done | by f_equal/=].
Qed.

(** A rejection of [Promise.all] is the rejection of one of the
    promises. *)
Lemma settle_rejection ps (order : list nat) s0 e :
  rejection (foldl (onSettle ps) s0 order) = Some e ->
  rejection s0 = Some e \/ Rejected e ∈ ps.
Proof.
  revert s0. induction order as [|i order IH]; intros s0; simpl; [by left|].
  intros H. destruct (IH _ H) as [H1|H1]; [|by right].
  unfold onSettle in H1. destruct (ps !! i) as [[v|e']|] eqn:Hp; simpl in H1.
  - by left.
  - destruct (rejection s0); [by left|]. right.
    injection H1 as ->. by eapply list_elem_of_lookup_2.
  - by left.
Qed.

Lemma Promise_all_rejected ps (schedule : list nat) e :
  Promise_all ps schedule = Rejected e -> Rejected e ∈ ps.
Proof.
  unfold Promise_all. destruct (rejection _) as [e'|] eqn:H; [|done].
  intros [= ->]. by destruct (settle_rejection _ _ _ _ H).
Qed.

End PromiseAll.

(** ** Synthesis *)

Lemma resolved_cons h notePath notes :
  resolved h (notePath :: notes) =
  match resolve h notePath with
  | Some _ => S (resolved h notes)
  | None => resolved h notes
  end.
Proof. unfold resolved. simpl. by destruct (resolve h notePath). Qed.

(** [notes.map] in [src/main.ts] yields the promises of [slots]. *)
Lemma Main_map_run h notes : forall w,
  mapA (Main.readNote h) notes w =
  (Fulfilled (slots h (reads w) notes),
   advance w (unresolvedLines h notes) (resolved h notes)).
Proof.
  induction notes as [|notePath notes IH]; intros w.
  - simpl. unfold ret. by rewrite advance_nothing.
  - cbn [mapA slots unresolvedLines]. rewrite resolved_cons.
    unfold bind at 1. unfold Main.readNote at 1, resolve.
    destruct (vault_getAbstractFileByPath h notePath) as [[f|d]|]; run;
      rewrite IH; run; f_equal; unfold advance; simpl; f_equal;
      first [lia | by rewrite <- app_assoc].
Qed.

Lemma Part000_map_run h notes : forall w,
  mapA (Part000.readNote h) notes w =
  (Fulfilled (slots h (reads w) notes),
   advance w (unresolvedLines h notes) (resolved h notes)).
Proof.
  induction notes as [|notePath notes IH]; intros w.
  - simpl. unfold ret. by rewrite advance_nothing.
  - cbn [mapA slots unresolvedLines]. rewrite resolved_cons.
    unfold bind at 1. unfold Part000.readNote at 1, resolve.
    destruct (vault_getAbstractFileByPath h notePath) as [[f|d]|]; run;
      rewrite IH; run; f_equal; unfold advance; simpl; f_equal;
      first [lia | by rewrite <- app_assoc].
Qed.

(** One run of [generateContent] in [src/main.ts] with a key. *)
Lemma Main_generateContent_run h notes w :
  truthy (Main.OPENAI_API_KEY h) = true ->
  Main.generateContent h notes w =
  let w1 := advance w (unresolvedLines h notes) (resolved h notes) in
  match Promise_all (slots h (reads w) notes) (settle_order h) with
  | Rejected e => (Rejected e, w1)
  | Fulfilled cs =>
      let request := userRequest (Main.prompt cs) in
      let r := reply (completions_create h (Main_client h) request) in
      (Fulfilled r.1, advance (sent w1 (Main_client h, request)) r.2 0)
  end.
Proof.
  intros Hkey. unfold Main.generateContent. rewrite Hkey. change (negb true) with false. cbv beta iota.
  unfold bind at 1. rewrite Main_map_run.
  unfold bind at 1, await at 1.
  destruct (Promise_all _ _) as [cs|e]; [|done].
  unfold try_catch, bind at 1, create at 1.
  fold (Main_client h). fold (userRequest (Main.prompt cs)). unfold reply.
  destruct (completions_create h _ _) as [response|e]; simpl.
  - fold (firstContent response).
    destruct (truthy_opt (firstContent response)); run; simpl.
    + f_equal. unfold advance, sent. simpl. by rewrite app_nil_r.
    + done.
  - done.
Qed.

Lemma Part000_generateContent_run h settings notes w :
  truthy (Part000.settings_apiKey settings) = true ->
  Part000.generateContent h settings notes w =
  let w1 := advance w (unresolvedLines h notes) (resolved h notes) in
  match Promise_all (slots h (reads w) notes) (settle_order h) with
  | Rejected e => (Rejected e, w1)
  | Fulfilled cs =>
      let request := userRequest (Part000.prompt cs) in
      let r := reply (completions_create h (Part000_client settings) request) in
      (Fulfilled r.1, advance (sent w1 (Part000_client settings, request)) r.2 0)
  end.
Proof.
  intros Hkey. unfold Part000.generateContent. rewrite Hkey. change (negb true) with false. cbv beta iota.
  unfold bind at 1. rewrite Part000_map_run.
  unfold bind at 1, await at 1.
  destruct (Promise_all _ _) as [cs|e]; [|done].
  unfold try_catch, bind at 1, create at 1.
  fold (Part000_client settings). fold (userRequest (Part000.prompt cs)). unfold reply.
  destruct (completions_create h _ _) as [response|e]; simpl.
  - fold (firstContent response).
    destruct (truthy_opt (firstContent response)); run; simpl.
    + f_equal. unfold advance, sent. simpl. by rewrite app_nil_r.
    + done.
  - done.
Qed.

Lemma or_else_empty (a : option string) :
  a = None \/ a = Some "" -> truthy (or_else a "") = false.
Proof. by intros [-> | ->]. Qed.

(** Each promise of [slots] stands at the position of its path: the
    empty string when the path does not resolve, else a read of the
    file it resolves to. *)
Lemma slots_lookup h notes : forall k i p,
  notes !! i = Some p ->
  exists o, slots h k notes !! i = Some o /\
    match resolve h p with
    | None => o = Fulfilled ""
    | Some f => exists k', o = vault_read h k' f
    end.
Proof.
  induction notes as [|q notes IH]; intros k i p Hi; [done|].
  destruct i as [|i]; simpl in Hi.
  - injection Hi as ->. simpl. destruct (resolve h p) as [f|] eqn:Hr; simpl.
    + eexists. split; [done|]. eauto.
    + eexists. by split.
  - simpl. destruct (resolve h q); simpl; by apply IH.
Qed.

Lemma slots_length h notes : forall k, length (slots h k notes) = length notes.
Proof.
  induction notes as [|q notes IH]; intros k; [done|].
  simpl. destruct (resolve h q); simpl; by rewrite IH.
Qed.

Lemma append_empty_r (x : string) : x +:+ "" = x.
Proof.
  induction x as [|a x IH]; [done|].
  change (String a (x +:+ "") = String a x). by rewrite IH.
Qed.

(** A value of the list occurs in the joined text. *)
Lemma join_elem (cs : list string) (sep c : string) :
  c ∈ cs -> exists pre post, join cs sep = pre +:+ c +:+ post.
Proof.
  unfold join. induction cs as [|x cs IH]; intros Hc.
  - by apply elem_of_nil in Hc.
  - apply elem_of_cons in Hc as [-> | Hc].
    + destruct cs as [|y cs].
      * exists "", "". change (x = x +:+ ""). by rewrite append_empty_r.
      * by exists "", (sep +:+ String.concat sep (y :: cs)).
    + destruct (IH Hc) as (pre & post & Hj). destruct cs as [|y cs].
      * by apply elem_of_nil in Hc.
      * exists (x +:+ sep +:+ pre), post.
        change (String.concat sep (x :: y :: cs))
          with (x +:+ sep +:+ String.concat sep (y :: cs)).
        by rewrite Hj, !append_assoc.
Qed.

Lemma prompt_includes (cs : list string) (c : string) :
  c ∈ cs -> includes (Main.prompt cs) c = true.
Proof.
  intros Hc. apply includes_spec. destruct (join_elem cs LF c Hc) as (pre & post & Hj).
  unfold Main.prompt. rewrite Hj.
  exists ("Uncover relationships between the following notes:" +:+ LF +:+ pre), post.
  by rewrite !append_assoc.
Qed.

(** The promises do not depend on the order in which they settle. *)
Lemma slots_reschedule h schedule notes : forall k,
  slots (reschedule h schedule) k notes = slots h k notes.
Proof.
  induction notes as [|p notes IH]; intros k; [done|].
  simpl. change (resolve (reschedule h schedule) p) with (resolve h p).
  destruct (resolve h p); by rewrite IH.
Qed.

(** ** The command *)

(** One run of the command of [src/main.ts] from a note with a path. *)
Lemma Main_editorCallback_run h view current w :
  file view = Some current -> truthy (path current) = true ->
  Main.editorCallback h view w =
  let F := folderOf (path current) in
  match Main.getNotesWithTag h "&uncover" F (searching w F) with
  | (Fulfilled notes, w1) =>
      if length notes =? 0 then (Fulfilled tt, inserted w1 NO_RELATED_NOTES)
      else
        match Main.generateContent h notes w1 with
        | (Fulfilled relationships, w2) =>
            (Fulfilled tt, inserted w2 (uncovered relationships))
        | (Rejected e, w2) => (Rejected e, w2)
        end
  | (Rejected e, w1) => (Rejected e, w1)
  end.
Proof.
  intros Hview Hpath. unfold Main.editorCallback. rewrite Hview. simpl.
  rewrite Hpath. simpl. unfold bind at 1, console_log at 1.
  change {| console := console w ++ [LogLine _]; reads := reads w;
            requests := requests w; editor := editor w;
            arrays := arrays w; pending := pending w |}
    with (searching w (folderOf (path current))).
  unfold bind at 1.
  destruct (Main.getNotesWithTag h "&uncover" _ _) as [[notes|e] w1]; [|done].
  destruct (length notes =? 0); [done|].
  unfold bind. by destruct (Main.generateContent h notes w1) as [[r|e] w2].
Qed.

Lemma Part000_editorCallback_run h settings view current w :
  truthy (Part000.settings_apiKey settings) = true ->
  file view = Some current -> truthy (path current) = true ->
  Part000.editorCallback h settings view w =
  let F := folderOf (path current) in
  match Part000.getNotesWithTag h "&uncover" F (searching w F) with
  | (Fulfilled notes, w1) =>
      if length notes =? 0 then (Fulfilled tt, inserted w1 NO_RELATED_NOTES)
      else
        match Part000.generateContent h settings notes w1 with
        | (Fulfilled relationships, w2) =>
            (Fulfilled tt, inserted w2 (uncovered relationships))
        | (Rejected e, w2) => (Rejected e, w2)
        end
  | (Rejected e, w1) => (Rejected e, w1)
  end.
Proof.
  intros Hkey Hview Hpath. unfold Part000.editorCallback.
  rewrite Hkey, Hview. simpl.
  rewrite Hpath. simpl. unfold bind at 1, console_log at 1.
  change {| console := console w ++ [LogLine _]; reads := reads w;
            requests := requests w; editor := editor w;
            arrays := arrays w; pending := pending w |}
    with (searching w (folderOf (path current))).
  unfold bind at 1.
  destruct (Part000.getNotesWithTag h "&uncover" _ _) as [[notes|e] w1]; [|done].
  destruct (length notes =? 0); [done|].
  unfold bind. by destruct (Part000.generateContent h settings notes w1) as [[r|e] w2].
Qed.

(** [generateContent] inserts nothing. *)
Lemma Main_generateContent_editor h notes w :
  editor (Main.generateContent h notes w).2 = editor w.
Proof.
  destruct (truthy (Main.OPENAI_API_KEY h)) eqn:Hkey.
  - rewrite (Main_generateContent_run h notes w Hkey). simpl.
    by destruct (Promise_all _ _).
  - unfold Main.generateContent. by rewrite Hkey.
Qed.

Lemma Part000_generateContent_editor h settings notes w :
  editor (Part000.generateContent h settings notes w).2 = editor w.
Proof.
  destruct (truthy (Part000.settings_apiKey settings)) eqn:Hkey.
  - rewrite (Part000_generateContent_run h settings notes w Hkey). simpl.
    by destruct (Promise_all _ _).
  - unfold Part000.generateContent. by rewrite Hkey.
Qed.

(** No path is selected exactly when no note in scope was read with
    the tag in it. *)
Lemma locate_spec_empty h tag F k0 store :
  locate_spec h tag F k0 store = [] <->
  forall k note text,
    inScope F store !! k = Some note ->
    vault_read h (k0 + k) note = Fulfilled text ->
    includes text tag = false.
Proof.
  split.
  - intros Hnil k note text Hk Hr.
    destruct (includes text tag) eqn:Ht; [|done].
    assert (path note ∈ locate_spec h tag F k0 store) as Hin.
    { apply locate_spec_elem. by exists k, note, text. }
    rewrite Hnil in Hin. by apply elem_of_nil in Hin.
  - intros Hnone. destruct (locate_spec h tag F k0 store) as [|p l] eqn:E; [done|].
    assert (p ∈ locate_spec h tag F k0 store) as Hin by (rewrite E; left).
    apply locate_spec_elem in Hin as (k & note & text & Hk & _ & Hr & Ht).
    rewrite (Hnone k note text Hk Hr) in Ht. done.
Qed.

(** The texts inserted on success are not the "no related notes"
    message. *)
Lemma uncovered_not_absence (r : string) (l : list string) :
  l ++ [uncovered r] <> l ++ [NO_RELATED_NOTES].
Proof. intros H. apply app_inv_head in H. discriminate H. Qed.

Lemma not_snoc {A} (l : list A) (x : A) : l <> l ++ [x].
Proof.
  intros H. apply (f_equal length) in H. rewrite length_app in H. simpl in H. lia.
Qed.

(** Shared by the two variants: from one run of discovery and the shape
    of the command to [reports_absence]. *)
Lemma reports_absence_intro h locate command generate view current w :
  (exists lines n,
     locate "&uncover" (folderOf (path current))
       (searching w (folderOf (path current))) =
     (Fulfilled (locate_spec h "&uncover" (folderOf (path current)) (reads w)
                   (vault_getFiles h)),
      advance (searching w (folderOf (path current))) lines n)) ->
  (forall notes w1,
     locate "&uncover" (folderOf (path current))
       (searching w (folderOf (path current))) = (Fulfilled notes, w1) ->
     command view w =
     if length notes =? 0 then (Fulfilled tt, inserted w1 NO_RELATED_NOTES)
     else
       match generate notes w1 : Outcome string * World with
       | (Fulfilled relationships, w2) =>
           (Fulfilled tt, inserted w2 (uncovered relationships))
       | (Rejected e, w2) => (Rejected e, w2)
       end) ->
  (forall notes w1, editor (generate notes w1).2 = editor w1) ->
  reports_absence h locate command view current w.
Proof.
  intros (lines & n & Hlocate) Hcommand Hgen. unfold reports_absence.
  eexists _, _. split; [exact Hlocate|]. split; [apply locate_spec_empty|].
  rewrite (Hcommand _ _ Hlocate). split.
  - intros ->. done.
  - intros Hne.
    destruct (locate_spec h "&uncover" _ _ _) as [|p l] eqn:E; [done|]. simpl.
    pose proof (Hgen (p :: l)
      (advance (searching w (folderOf (path current))) lines n)) as He.
    destruct (generate _ _) as [[r|e] w2]; simpl in *.
    + rewrite He. apply uncovered_not_absence.
    + rewrite He. apply not_snoc.
Qed.

(** ** The variant that does not wait *)

Lemma callbacks_cons h tag F a k note store :
  callbacks h tag F a k (note :: store) =
  if startsWith (path note) F then
    {| then_promise := vault_read h k note; then_tag := tag;
       then_path := path note; then_notes := a |}
    :: callbacks h tag F a (S k) store
  else callbacks h tag F a k store.
Proof.
  unfold callbacks. rewrite inScope_cons.
  destruct (startsWith (path note) F); [|done].
  by rewrite contentsAsRead_cons.
Qed.

(** The [forEach] of [part_001] issues a read for each note in scope
    and registers its callback; nothing else happens. *)
Lemma Part001_forEach_run h tag F a files : forall w,
  forEach files (fun file =>
    if startsWith (path file) F then
      p <- read h file ;;
      then_ {| then_promise := p; then_tag := tag;
               then_path := path file; then_notes := a |}
    else ret tt)%async w =
  (Fulfilled tt,
   {| console := console w;
      reads := length (inScope F files) + reads w;
      requests := requests w; editor := editor w; arrays := arrays w;
      pending := pending w ++ callbacks h tag F a (reads w) files |}).
Proof.
  induction files as [|file files IH]; intros w.
  - simpl. unfold ret. destruct w. simpl. by rewrite app_nil_r.
  - cbn [forEach]. rewrite callbacks_cons, inScope_cons. unfold bind at 1.
    destruct (startsWith (path file) F).
    + unfold bind at 1, read at 1, then_ at 1. rewrite IH. simpl.
      do 2 f_equal; [lia | by rewrite <- app_assoc].
    + unfold ret at 1. by rewrite IH.
Qed.

(** [getNotesWithTag] of [part_001] returns a fresh array, still empty,
    with the callbacks pending. *)
Lemma Part001_getNotesWithTag_run h tag F w :
  Part001.getNotesWithTag h tag F w =
  (Fulfilled (length (arrays w)),
   registered w
     (callbacks h tag F (length (arrays w)) (reads w) (vault_getFiles h))
     (length (inScope F (vault_getFiles h)))).
Proof.
  unfold Part001.getNotesWithTag. unfold bind at 1, newArray at 1.
  unfold bind at 1. rewrite Part001_forEach_run. done.
Qed.

(** ** What holds of [generateContent] when the reads succeed *)

(** With every read fulfilled, [generateContent] of [src/main.ts] is
    fulfilled with one of four texts: the configuration-missing text,
    the "no response content" text, the provider-failure text (a
    rejected completion call is caught), or the non-empty content of
    the first choice. *)
Lemma Main_generateContent_texts h notes cs w :
  slots h (reads w) notes = Fulfilled <$> cs ->
  exists s w',
    Main.generateContent h notes w = (Fulfilled s, w') /\
    (s = MISSING_KEY_ENV \/ s = NO_RESPONSE_CONTENT \/ s = PROVIDER_FAILURE \/
     exists response,
       completions_create h (Main_client h) (userRequest (Main.prompt cs)) =
         Fulfilled response /\
       firstContent response = Some s /\ s <> "").
Proof.
  intros Hslots. destruct (truthy (Main.OPENAI_API_KEY h)) eqn:Hkey.
  - rewrite (Main_generateContent_run h notes w Hkey), Hslots,
      Promise_all_fulfilled. simpl.
    eexists _, _. split; [reflexivity|]. unfold reply.
    destruct (completions_create h _ _) as [response|e] eqn:Hc; [|auto].
    destruct (firstContent response) as [[|a s]|] eqn:Hf; simpl; auto.
    right. right. right. exists response. by rewrite Hf.
  - unfold Main.generateContent. rewrite Hkey. simpl. unfold ret. eauto.
Qed.

(** ** The variant [part_001] on the sample vault *)

(** The pushes arrive once the pending callbacks run, long after
    [getNotesWithTag] has returned, and in the order the reads settle. *)
Example Part001_pushes_arrive_later :
  let w := (Part001.getNotesWithTag Sample.host "&uncover" "/proj" emptyWorld).2 in
  arrays w = [[]] /\
  arrays (runPending [2; 0; 1] w) =
    [["/proj/current.md"; "/proj/note1.md"; "/proj/note2.md"]].
Proof. vm_compute. by split. Qed.

(** That variant hands an unresolved path to [vault.read] as is and
    returns a [null] content as is. *)
Example Part001_generateContent_unguarded :
  (Part001.generateContent Sample.host ["/gone.md"] emptyWorld).1 =
    Rejected "TypeError: Cannot read properties of null" /\
  (Part001.generateContent
     {| vault_getFiles := Sample.store;
        vault_read := fun _ f => Fulfilled (Sample.text f);
        vault_getAbstractFileByPath := Sample.lookup;
        completions_create := fun _ _ =>
          Fulfilled {| choices := [ {| message := Some {| message_content := None |} |} ] |};
        process_env := Sample.env;
        settle_order := [] |}
     ["/proj/note1.md"] emptyWorld).1 = Fulfilled None.
Proof. vm_compute. by split. Qed.

(** * The claims *)

(** C1. For every tag and folder scope, [getNotesWithTag] (of
    [src/main.ts] and of [part_000]) is fulfilled with exactly the paths
    the specification's locator selects: the notes of the store, in
    enumeration order, whose path starts with the folder scope and whose
    content as read during the scan contains the tag. A path is
    returned if and only if it is the path of such a note, and no
    returned path fails to start with the folder scope. *)
Theorem C1_locate_returns_tagged_notes_in_scope h tag F w :
  let result := locate_spec h tag F (reads w) (vault_getFiles h) in
  (Main.getNotesWithTag h tag F w).1 = Fulfilled result /\
  (Part000.getNotesWithTag h tag F w).1 = Fulfilled result /\
  (forall p, p ∈ result <->
     exists k note text,
       inScope F (vault_getFiles h) !! k = Some note /\ path note = p /\
       vault_read h (reads w + k) note = Fulfilled text /\
       exists pre post, text = pre +:+ tag +:+ post) /\
  (forall p, p ∈ result -> exists rest, p = F +:+ rest).
Proof.
  intros result.
  destruct (Main_getNotesWithTag_run h tag F w) as [l1 H1].
  destruct (Part000_getNotesWithTag_run h tag F w) as [l2 H2].
  rewrite H1, H2. split; [done|]. split; [done|]. split; intros p.
  - split.
    + intros Hp.
      apply locate_spec_elem in Hp as (k & note & text & ? & ? & ? & Ht).
      apply includes_spec in Ht. by exists k, note, text.
    + intros (k & note & text & ? & ? & ? & Ht). apply locate_spec_elem.
      apply includes_spec in Ht. by exists k, note, text.
  - intros Hp. apply locate_spec_elem in Hp as (k & note & text & Hk & <- & _).
    apply startsWith_spec.
    apply list_elem_of_lookup_2, inScope_elem in Hk. tauto.
Qed.

Lemma C1_witness :
  (Main.getNotesWithTag Sample.host "&uncover" "/proj" emptyWorld).1 =
    Fulfilled ["/proj/note1.md"; "/proj/note2.md"; "/proj/current.md"] /\
  exists rest, "/proj/note2.md" = "/proj" +:+ rest.
Proof.
  pose proof (C1_locate_returns_tagged_notes_in_scope
                Sample.host "&uncover" "/proj" emptyWorld) as (H1 & _ & _ & H4).
  split.
  - exact H1.
  - apply H4. apply list_elem_of_In. vm_compute. right. left. reflexivity.
Defined.

(** C7. For every store, tag and folder scope, [getNotesWithTag] is
    fulfilled, never rejected; and when the read of a note in scope
    fails, the result is what the scan selects from the notes before it
    followed by what it selects from the notes after it: the unreadable
    note is left out and the scan goes on over the rest. *)
Theorem C7_unreadable_note_is_skipped h tag F w :
  (exists notes w', Main.getNotesWithTag h tag F w = (Fulfilled notes, w')) /\
  (forall before note after e,
     vault_getFiles h = before ++ note :: after ->
     startsWith (path note) F = true ->
     vault_read h (reads w + length (inScope F before)) note = Rejected e ->
     (Main.getNotesWithTag h tag F w).1 =
     Fulfilled
       (locate_spec h tag F (reads w) before ++
        locate_spec h tag F (reads w + length (inScope F before) + 1) after)).
Proof.
  destruct (Main_getNotesWithTag_run h tag F w) as [lines H]. split.
  - rewrite H. eauto.
  - intros before note after e Hfiles Hscope Hread. rewrite H. simpl. f_equal.
    rewrite Hfiles, locate_spec_app, locate_spec_cons, Hscope.
    replace (length (inScope F before) + reads w)
      with (reads w + length (inScope F before)) by lia.
    unfold containsTag. simpl. rewrite Hread. simpl. do 2 f_equal. lia.
Qed.

Lemma C7_witness :
  (Main.getNotesWithTag Sample.unreadable "&uncover" "/proj" emptyWorld).1 =
  Fulfilled (["/proj/note1.md"] ++ ["/proj/current.md"]).
Proof.
  apply (proj2 (C7_unreadable_note_is_skipped
                  Sample.unreadable "&uncover" "/proj" emptyWorld)
           [Sample.note1] Sample.note2 [Sample.note3; Sample.current]
           "EACCES: permission denied");
    reflexivity.
Defined.

(** C3. When the key is absent or empty, [generateContent] returns the
    configuration-missing text and leaves the world as it found it: no
    path is resolved, no note is read and no request reaches the
    provider. In [src/main.ts] the key is the environment's, in
    [part_000] the settings'. *)
Theorem C3_missing_key_returns_sentinel_without_calls h settings notes w :
  (env_OPENAI_API_KEY (process_env h) = None \/
   env_OPENAI_API_KEY (process_env h) = Some "" ->
   Main.generateContent h notes w = (Fulfilled MISSING_KEY_ENV, w)) /\
  (Part000.settings_apiKey settings = "" ->
   Part000.generateContent h settings notes w = (Fulfilled MISSING_KEY_SETTINGS, w)).
Proof.
  split.
  - intros Hkey. unfold Main.generateContent, Main.OPENAI_API_KEY.
    by rewrite (or_else_empty _ Hkey).
  - intros Hkey. unfold Part000.generateContent. by rewrite Hkey.
Qed.

Lemma C3_witness :
  Main.generateContent Sample.keyless ["/proj/note1.md"] emptyWorld =
    (Fulfilled MISSING_KEY_ENV, emptyWorld) /\
  Part000.generateContent Sample.host Part000.DEFAULT_SETTINGS
    ["/proj/note1.md"] emptyWorld =
    (Fulfilled MISSING_KEY_SETTINGS, emptyWorld).
Proof.
  pose proof (C3_missing_key_returns_sentinel_without_calls
                Sample.keyless Part000.DEFAULT_SETTINGS
                ["/proj/note1.md"] emptyWorld) as [H1 _].
  pose proof (C3_missing_key_returns_sentinel_without_calls
                Sample.host Part000.DEFAULT_SETTINGS
                ["/proj/note1.md"] emptyWorld) as [_ H2].
  split.
  - apply H1. left. reflexivity.
  - apply H2. reflexivity.
Defined.

(** C4. With a key and every read fulfilled, the one request
    [generateContent] sends carries the lead-in followed by the contents
    joined by line feeds in the order of the input paths: [cs] lists, by
    input position, what each promise was fulfilled with. This holds for
    every order in which the reads settle. *)
Theorem C4_prompt_keeps_input_order h settings schedule notes cs w :
  slots h (reads w) notes = Fulfilled <$> cs ->
  let text := "Uncover relationships between the following notes:" +:+ LF +:+
              join cs LF in
  length cs = length notes /\
  (truthy (Main.OPENAI_API_KEY h) = true ->
   requests (Main.generateContent (reschedule h schedule) notes w).2 =
   requests w ++ [(Main_client h, userRequest text)]) /\
  (truthy (Part000.settings_apiKey settings) = true ->
   requests (Part000.generateContent (reschedule h schedule) settings notes w).2 =
   requests w ++ [(Part000_client settings, userRequest text)]).
Proof.
  intros Hslots text. split; [|split].
  - by rewrite <- (slots_length h notes (reads w)), Hslots, length_fmap.
  - intros Hkey.
    rewrite (Main_generateContent_run (reschedule h schedule) notes w Hkey).
    rewrite slots_reschedule, Hslots, Promise_all_fulfilled. done.
  - intros Hkey.
    rewrite (Part000_generateContent_run (reschedule h schedule) settings notes w Hkey).
    rewrite slots_reschedule, Hslots, Promise_all_fulfilled. done.
Qed.

Lemma C4_witness :
  requests (Main.generateContent (reschedule Sample.host [2; 0; 1])
              ["/proj/note1.md"; "/gone.md"; "/proj/note2.md"] emptyWorld).2 =
  [(Main_client Sample.host,
    userRequest ("Uncover relationships between the following notes:" +:+ LF +:+
                 join ["...&uncover..."; ""; "&uncover"] LF))].
Proof.
  apply (C4_prompt_keeps_input_order Sample.host Sample.settings [2; 0; 1]
           ["/proj/note1.md"; "/gone.md"; "/proj/note2.md"]
           ["...&uncover..."; ""; "&uncover"] emptyWorld);
    reflexivity.
Defined.

(** C2. The claim is that [generateContent] never throws to its caller.
    In [src/main.ts] the reads are awaited by [Promise.all] outside the
    [try]: here [/proj/note2.md] resolves to a file but cannot be read,
    so the call is rejected with the error of the read, and the command
    that made the call is rejected too and inserts nothing. *)
Theorem C2_read_failure_escapes_generateContent :
  (Main.generateContent Sample.unreadable
     ["/proj/note1.md"; "/proj/note2.md"] emptyWorld).1 =
    Rejected "EACCES: permission denied" /\
  (Part000.generateContent Sample.unreadable Sample.settings
     ["/proj/note1.md"; "/proj/note2.md"] emptyWorld).1 =
    Rejected "EACCES: permission denied" /\
  requests (Main.generateContent Sample.unreadable
     ["/proj/note1.md"; "/proj/note2.md"] emptyWorld).2 = [] /\
  (let read_again := fun k f =>
     if (2 <? k) && String.eqb (path f) "/proj/note2.md"
     then Rejected "EACCES: permission denied"
     else Fulfilled (Sample.text f) in
   let h := {| vault_getFiles := Sample.store;
               vault_read := read_again;
               vault_getAbstractFileByPath := Sample.lookup;
               completions_create := fun _ _ => Fulfilled Sample.answer;
               process_env := Sample.env;
               settle_order := [] |} in
   (Main.editorCallback h Sample.view emptyWorld).1 =
     Rejected "EACCES: permission denied" /\
   editor (Main.editorCallback h Sample.view emptyWorld).2 = []).
Proof. vm_compute. repeat split. Qed.

(** C5. When the provider returns a response whose first choice's
    message content is absent or empty (no choices at all, a first
    choice without a message, a [null] content, an empty content),
    [generateContent] is fulfilled with the "no response content" text. *)
Theorem C5_contentless_response_gives_sentinel h notes cs w response :
  truthy (Main.OPENAI_API_KEY h) = true ->
  slots h (reads w) notes = Fulfilled <$> cs ->
  completions_create h (Main_client h) (userRequest (Main.prompt cs)) =
    Fulfilled response ->
  choices response = [] \/
  (exists c rest, choices response = c :: rest /\
     (message c = None \/
      message c = Some {| message_content := None |} \/
      message c = Some {| message_content := Some "" |})) ->
  (Main.generateContent h notes w).1 = Fulfilled NO_RESPONSE_CONTENT.
Proof.
  intros Hkey Hslots Hanswer Hempty.
  rewrite (Main_generateContent_run h notes w Hkey), Hslots, Promise_all_fulfilled.
  simpl. rewrite Hanswer. unfold reply, firstContent.
  destruct Hempty as [Hc | (c & rest & Hc & Hm)]; rewrite Hc; simpl; [done|].
  by destruct Hm as [-> | [-> | ->]].
Qed.

Lemma C5_witness :
  (Main.generateContent Sample.speechless ["/proj/note1.md"] emptyWorld).1 =
  Fulfilled NO_RESPONSE_CONTENT.
Proof.
  apply (C5_contentless_response_gives_sentinel Sample.speechless
           ["/proj/note1.md"] ["...&uncover..."] emptyWorld {| choices := [] |});
    [reflexivity | reflexivity | reflexivity | left; reflexivity].
Defined.

(** C6. In [generateContent], a path that does not resolve to a note
    holds the empty string at its position. With a key, when the reads
    of the paths that do resolve are fulfilled the call is fulfilled
    and has sent the prompt built from all positions; and a rejected
    call is always rejected by the read of a path that did resolve,
    never by one that did not. *)
Theorem C6_unresolved_path_is_empty_placeholder h notes w :
  truthy (Main.OPENAI_API_KEY h) = true ->
  (forall i p, notes !! i = Some p -> resolve h p = None ->
     slots h (reads w) notes !! i = Some (Fulfilled "")) /\
  (forall cs, slots h (reads w) notes = Fulfilled <$> cs ->
     (forall i p, notes !! i = Some p -> resolve h p = None -> cs !! i = Some "") /\
     exists answer w',
       Main.generateContent h notes w = (Fulfilled answer, w') /\
       requests w' =
       requests w ++ [(Main_client h, userRequest (Main.prompt cs))]) /\
  (forall e w', Main.generateContent h notes w = (Rejected e, w') ->
     exists i p f k,
       notes !! i = Some p /\ resolve h p = Some f /\
       vault_read h k f = Rejected e).
Proof.
  intros Hkey.
  assert (forall i p, notes !! i = Some p -> resolve h p = None ->
            slots h (reads w) notes !! i = Some (Fulfilled "")) as Hempty.
  { intros i p Hi Hr.
    destruct (slots_lookup h notes (reads w) i p Hi) as (o & Ho & Hm).
    rewrite Hr in Hm. by subst o. }
  split; [exact Hempty|]. split.
  - intros cs Hslots. split.
    + intros i p Hi Hr. specialize (Hempty i p Hi Hr).
      rewrite Hslots, list_lookup_fmap in Hempty.
      destruct (cs !! i); simpl in Hempty; congruence.
    + rewrite (Main_generateContent_run h notes w Hkey), Hslots,
        Promise_all_fulfilled. simpl. eauto.
  - intros e w'. rewrite (Main_generateContent_run h notes w Hkey). simpl.
    destruct (Promise_all _ _) as [cs|e'] eqn:Hall; [done|].
    intros [= -> <-]. apply Promise_all_rejected in Hall.
    apply list_elem_of_lookup in Hall as [i Hi].
    assert (i < length notes) as Hlt.
    { rewrite <- (slots_length h notes (reads w)). by eapply lookup_lt_Some. }
    apply lookup_lt_is_Some in Hlt as [p Hp].
    destruct (slots_lookup h notes (reads w) i p Hp) as (o & Ho & Hm).
    rewrite Hi in Ho. injection Ho as <-.
    destruct (resolve h p) as [f|] eqn:Hr; [|done].
    destruct Hm as [k Hk]. by exists i, p, f, k.
Qed.

Lemma C6_witness :
  slots Sample.host 0 ["/proj/note1.md"; "/gone.md"; "/proj/note2.md"] !! 1 =
    Some (Fulfilled "") /\
  exists answer w',
    Main.generateContent Sample.host
      ["/proj/note1.md"; "/gone.md"; "/proj/note2.md"] emptyWorld =
      (Fulfilled answer, w') /\
    requests w' =
    [(Main_client Sample.host,
      userRequest (Main.prompt ["...&uncover..."; ""; "&uncover"]))].
Proof.
  pose proof (C6_unresolved_path_is_empty_placeholder Sample.host
                ["/proj/note1.md"; "/gone.md"; "/proj/note2.md"] emptyWorld
                eq_refl) as (H1 & H2 & _).
  split.
  - apply (H1 1 "/gone.md"); reflexivity.
  - apply (H2 ["...&uncover..."; ""; "&uncover"]). reflexivity.
Defined.

(** C8. Run from a note with a path (and, in [part_000], with a key in
    the settings, without which that variant stops before discovery),
    [getNotesWithTag] is fulfilled with the empty list, not rejected,
    exactly when no note under the folder scope was read with the tag in
    it, an empty store included; and the command inserts the "no related
    notes" message exactly in this case, ending right after discovery:
    [generateContent] does not run and no request reaches the provider. *)
Theorem C8_no_match_reports_no_related_notes h settings view current w :
  file view = Some current -> truthy (path current) = true ->
  reports_absence h (Main.getNotesWithTag h) (Main.editorCallback h)
    view current w /\
  (truthy (Part000.settings_apiKey settings) = true ->
   reports_absence h (Part000.getNotesWithTag h)
     (Part000.editorCallback h settings) view current w).
Proof.
  intros Hview Hpath. split.
  - apply (reports_absence_intro _ _ _ (Main.generateContent h)).
    + destruct (Main_getNotesWithTag_run h "&uncover" (folderOf (path current))
                  (searching w (folderOf (path current)))) as [lines H].
      eauto.
    + intros notes w1 Hlocate.
      rewrite (Main_editorCallback_run h view current w Hview Hpath).
      simpl. by rewrite Hlocate.
    + apply Main_generateContent_editor.
  - intros Hkey.
    apply (reports_absence_intro _ _ _ (Part000.generateContent h settings)).
    + destruct (Part000_getNotesWithTag_run h "&uncover" (folderOf (path current))
                  (searching w (folderOf (path current)))) as [lines H].
      eauto.
    + intros notes w1 Hlocate.
      rewrite (Part000_editorCallback_run h settings view current w
                 Hkey Hview Hpath).
      simpl. by rewrite Hlocate.
    + apply Part000_generateContent_editor.
Qed.

Lemma C8_witness :
  reports_absence Sample.untagged (Main.getNotesWithTag Sample.untagged)
    (Main.editorCallback Sample.untagged) Sample.view Sample.current emptyWorld /\
  reports_absence Sample.untagged (Part000.getNotesWithTag Sample.untagged)
    (Part000.editorCallback Sample.untagged Sample.settings)
    Sample.view Sample.current emptyWorld.
Proof.
  pose proof (C8_no_match_reports_no_related_notes Sample.untagged
                Sample.settings Sample.view Sample.current emptyWorld
                eq_refl eq_refl) as [H1 H2].
  split; [exact H1 | apply H2; reflexivity].
Defined.

(** C9. In [part_001], for every store, tag and folder scope,
    [getNotesWithTag] returns a fresh array that is empty when it
    returns: each note in scope has had its read issued and a callback
    left pending that would push onto that array, and none has run.
    The command, which looks at the array at once, therefore inserts
    the "no related notes" message, whatever the store holds, and sends
    nothing to the provider. *)
Theorem C9_part001_returns_empty_array h tag F w current :
  (exists w',
     Part001.getNotesWithTag h tag F w = (Fulfilled (length (arrays w)), w') /\
     arrays w' !! length (arrays w) = Some [] /\
     pending w' =
     pending w ++
     callbacks h tag F (length (arrays w)) (reads w) (vault_getFiles h)) /\
  (exists w',
     Part001.editorCallback h {| file := Some current |} w =
     (Fulfilled tt, inserted w' "No related notes with the #uncover tag found.") /\
     requests w' = requests w /\ editor w' = editor w).
Proof.
  split.
  - rewrite Part001_getNotesWithTag_run. eexists. split; [done|]. split; [|done].
    unfold registered. simpl. by rewrite lookup_app_r, Nat.sub_diag.
  - unfold Part001.editorCallback. simpl. unfold bind at 1.
    rewrite Part001_getNotesWithTag_run. unfold bind at 1, elements at 1.
    unfold registered at 1. cbn [arrays].
    rewrite lookup_app_r, Nat.sub_diag by done. simpl.
    unfold replaceSelection. eexists. split; [reflexivity|]. done.
Qed.

(** C10. The note the command is run from is treated like any other:
    its path starts with the folder derived from it, so when the store
    lists it and the read of the scan finds the tag in it, its path is
    among the paths discovered; and when the key is set and the reads of
    [generateContent] are fulfilled, what was read again for it stands
    in its position and occurs in the prompt of the request the command
    sends. *)
Theorem C10_current_note_is_discovered_and_reread
    h view current before after text w :
  file view = Some current -> truthy (path current) = true ->
  let F := folderOf (path current) in
  vault_getFiles h = before ++ current :: after ->
  vault_read h (reads w + length (inScope F before)) current = Fulfilled text ->
  includes text "&uncover" = true ->
  startsWith (path current) F = true /\
  exists notes w1,
    Main.getNotesWithTag h "&uncover" F (searching w F) = (Fulfilled notes, w1) /\
    path current ∈ notes /\
    (forall cs,
       truthy (Main.OPENAI_API_KEY h) = true ->
       slots h (reads w1) notes = Fulfilled <$> cs ->
       exists i again,
         notes !! i = Some (path current) /\ cs !! i = Some again /\
         (forall f, resolve h (path current) = Some f ->
            exists k, vault_read h k f = Fulfilled again) /\
         requests (Main.editorCallback h view w).2 =
           requests w ++ [(Main_client h, userRequest (Main.prompt cs))] /\
         includes (Main.prompt cs) again = true).
Proof.
  intros Hview Hpath F Hfiles Hread Htag.
  assert (startsWith (path current) F = true) as HF by apply startsWith_folder.
  split; [exact HF|].
  destruct (Main_getNotesWithTag_run h "&uncover" F (searching w F)) as [lines Hrun].
  eexists _, _. split; [exact Hrun|].
  set (notes := locate_spec h "&uncover" F (reads (searching w F)) (vault_getFiles h)) in *.
  assert (path current ∈ notes) as Hin.
  { apply locate_spec_elem. exists (length (inScope F before)), current, text.
    split; [|by split].
    rewrite Hfiles, inScope_app, inScope_cons, HF.
    by rewrite lookup_app_r, Nat.sub_diag. }
  split; [exact Hin|].
  intros cs Hkey Hslots.
  apply list_elem_of_lookup in Hin as [i Hi].
  match type of Hslots with
  | slots _ ?k _ = _ => destruct (slots_lookup h notes k i _ Hi) as (o & Ho & Hm)
  end.
  rewrite Hslots, list_lookup_fmap in Ho.
  destruct (cs !! i) as [again|] eqn:Hcs; [|done]. simpl in Ho.
  injection Ho as <-.
  exists i, again. split; [done|]. split; [done|]. split; [|split].
  - intros f Hf. rewrite Hf in Hm. destruct Hm as [k Hk]. by exists k.
  - rewrite (Main_editorCallback_run h view current w Hview Hpath). simpl.
    fold F. rewrite Hrun.
    destruct notes as [|p notes']; [done|]. simpl.
    rewrite (Main_generateContent_run h _ _ Hkey). simpl.
    simpl in Hslots. rewrite Hslots, Promise_all_fulfilled. done.
  - apply prompt_includes. by eapply list_elem_of_lookup_2.
Qed.

Lemma C10_witness :
  startsWith "/proj/current.md" "/proj" = true /\
  exists i again,
    ["...&uncover..."; "&uncover"; "draft &uncover"] !! i = Some again /\
    requests (Main.editorCallback Sample.host Sample.view emptyWorld).2 =
      [(Main_client Sample.host,
        userRequest (Main.prompt ["...&uncover..."; "&uncover"; "draft &uncover"]))] /\
    includes (Main.prompt ["...&uncover..."; "&uncover"; "draft &uncover"]) again
      = true.
Proof.
  destruct (C10_current_note_is_discovered_and_reread Sample.host Sample.view
              Sample.current [Sample.note1; Sample.note2; Sample.note3] []
              "draft &uncover" emptyWorld eq_refl eq_refl eq_refl eq_refl eq_refl)
    as (H1 & notes & w1 & H2 & _ & H4).
  split; [exact H1|].
  vm_compute in H2. injection H2 as <- <-.
  destruct (H4 ["...&uncover..."; "&uncover"; "draft &uncover"] eq_refl eq_refl)
    as (i & again & _ & Hcs & _ & Hreq & Hinc).
  exists i, again. split; [exact Hcs|]. split; [exact Hreq | exact Hinc].
Defined.

(** * Further properties of the code *)

(** ** The folder of the current note *)

Lemma lastIndexOf_from_none (s : string) (i : nat) :
  includes s "/" = false -> lastIndexOf_from s "/" i = None.
Proof.
  revert i. induction s as [|c s IH]; intros i H; [done|].
  rewrite includes_unfold in H. apply orb_false_iff in H as [Hp Hi].
  cbn [lastIndexOf_from]. rewrite (IH _ Hi). by rewrite Hp.
Qed.

Lemma lastIndexOf_from_last (dir name : string) : forall i,
  includes name "/" = false ->
  lastIndexOf_from (dir +:+ "/" +:+ name) "/" i = Some (i + String.length dir).
Proof.
  induction dir as [|c dir IH]; intros i H.
  - change ("" +:+ "/" +:+ name) with (String "/" name).
    cbn [lastIndexOf_from]. rewrite (lastIndexOf_from_none _ _ H).
    simpl. destruct name; simpl; f_equal; lia.
  - change (String c dir +:+ "/" +:+ name) with (String c (dir +:+ "/" +:+ name)).
    cbn [lastIndexOf_from]. rewrite (IH (S i) H). simpl. f_equal. lia.
Qed.

Lemma substring_app (a b : string) :
  String.substring 0 (String.length a) (a +:+ b) = a.
Proof.
  induction a as [|c a IH].
  - by destruct b.
  - change (String c a +:+ b) with (String c (a +:+ b)). simpl. by rewrite IH.
Qed.

Lemma length_append (a b : string) :
  String.length (a +:+ b) = String.length a + String.length b.
Proof.
  induction a as [|c a IH]; [done|].
  change (String c a +:+ b) with (String c (a +:+ b)). simpl. by rewrite IH.
Qed.

Lemma folderOf_directory (dir name : string) :
  includes name "/" = false ->
  folderOf (dir +:+ "/" +:+ name) = dir.
Proof.
  intros H. unfold folderOf, lastIndexOf, substring, clampIndex.
  rewrite (lastIndexOf_from_last dir name 0 H). simpl Z.to_nat.
  rewrite Nat2Z.id, length_append.
  rewrite Nat.min_0_l, Nat.max_0_l, Nat.sub_0_r.
  rewrite (Nat.min_l (String.length dir)) by lia.
  apply substring_app.
Qed.

(** X1. The folder of [dir/name], where [name] has no slash, is [dir]:
    the command searches under the directory of the current note. *)
Theorem X1_folder_of_path_in_directory (dir name : string) :
  includes name "/" = false ->
  folderOf (dir +:+ "/" +:+ name) = dir.
Proof. apply folderOf_directory. Qed.

Lemma X1_witness : folderOf ("/proj/sub" +:+ "/" +:+ "current.md") = "/proj/sub".
Proof. apply X1_folder_of_path_in_directory. reflexivity. Defined.

(** X2. For a note at the root of the vault (no slash in its path) the
    folder is the empty string, and the empty folder puts every note of
    the store in scope: the command then scans the whole vault. *)
Theorem X2_root_note_scans_whole_vault (p : string) (store : list TFile) :
  includes p "/" = false ->
  folderOf p = "" /\ inScope (folderOf p) store = store.
Proof.
  intros H.
  assert (folderOf p = "") as ->.
  { unfold folderOf, lastIndexOf, substring, clampIndex.
    rewrite (lastIndexOf_from_none _ _ H). simpl. by destruct p. }
  split; [done|]. unfold inScope, startsWith.
  induction store as [|f store IH]; [done|]. simpl.
  destruct (path f); simpl; by rewrite IH.
Qed.

Lemma X2_witness :
  folderOf "current.md" = "" /\
  inScope (folderOf "current.md") Sample.store = Sample.store.
Proof. apply X2_root_note_scans_whole_vault. reflexivity. Defined.

(** X3. The scope is a prefix of the path as a string: any note whose
    path begins with the characters of the current note's directory is
    in scope, be it in that directory, below it, or in a sibling whose
    name only begins like the directory's. *)
Theorem X3_scope_is_a_string_prefix (dir name rest : string)
    (note : TFile) (store : list TFile) :
  includes name "/" = false ->
  note ∈ store -> path note = dir +:+ rest ->
  note ∈ inScope (folderOf (dir +:+ "/" +:+ name)) store.
Proof.
  intros Hname Hin Hpath. rewrite (folderOf_directory dir name Hname).
  apply inScope_elem. split; [done|].
  apply startsWith_spec. by exists rest.
Qed.

Lemma X3_witness :
  {| path := "/projects/plan.md" |} ∈
  inScope (folderOf ("/proj" +:+ "/" +:+ "current.md"))
    [ {| path := "/projects/plan.md" |} ].
Proof.
  apply (X3_scope_is_a_string_prefix "/proj" "current.md" "ects/plan.md");
    [reflexivity | left | reflexivity].
Defined.

(** ** Discovery *)

(** X4. Discovery only reads and writes to the console: it issues one
    read for each note in scope and none for any other, sends nothing
    to the provider, inserts nothing in the editor, and what was on the
    console stays there. *)
Theorem X4_discovery_only_reads h tag F w :
  let w1 := (Main.getNotesWithTag h tag F w).2 in
  let w2 := (Part000.getNotesWithTag h tag F w).2 in
  (reads w1 = length (inScope F (vault_getFiles h)) + reads w /\
   requests w1 = requests w /\ editor w1 = editor w /\
   exists lines, console w1 = console w ++ lines) /\
  (reads w2 = length (inScope F (vault_getFiles h)) + reads w /\
   requests w2 = requests w /\ editor w2 = editor w /\
   exists lines, console w2 = console w ++ lines).
Proof.
  destruct (Main_getNotesWithTag_run h tag F w) as [l1 H1].
  destruct (Part000_getNotesWithTag_run h tag F w) as [l2 H2].
  simpl. rewrite H1, H2. simpl. repeat split; eauto.
Qed.

Lemma locate_spec_paths h tag F k store p :
  p ∈ locate_spec h tag F k store -> p ∈ path <$> store.
Proof.
  intros Hp. apply locate_spec_elem in Hp as (i & note & text & Hi & <- & _).
  apply list_elem_of_fmap. exists note. split; [done|].
  apply list_elem_of_lookup_2, inScope_elem in Hi. tauto.
Qed.

Lemma locate_spec_NoDup h tag F store : forall k,
  NoDup (path <$> store) -> NoDup (locate_spec h tag F k store).
Proof.
  induction store as [|note store IH]; intros k Hnd.
  - rewrite locate_spec_nil. constructor.
  - rewrite fmap_cons in Hnd. apply NoDup_cons in Hnd as [Hnotin Hnd].
    rewrite locate_spec_cons. destruct (startsWith (path note) F); [|by apply IH].
    destruct (containsTag tag (note, vault_read h k note)); simpl; [|by apply IH].
    apply NoDup_cons. split; [|by apply IH].
    intros Hin. by apply Hnotin, (locate_spec_paths h tag F (S k)).
Qed.

(** X5. When the paths of the store are distinct, so are the paths
    discovery returns: no note is handed to the synthesis twice. *)
Theorem X5_discovery_returns_distinct_paths h tag F w notes :
  NoDup (path <$> vault_getFiles h) ->
  (Main.getNotesWithTag h tag F w).1 = Fulfilled notes ->
  NoDup notes.
Proof.
  intros Hnd. destruct (Main_getNotesWithTag_run h tag F w) as [lines ->].
  simpl. intros [= <-]. by apply locate_spec_NoDup.
Qed.

Lemma X5_witness :
  NoDup ["/proj/note1.md"; "/proj/note2.md"; "/proj/current.md"].
Proof.
  apply (X5_discovery_returns_distinct_paths Sample.host "&uncover" "/proj"
           emptyWorld).
  - apply (bool_decide_unpack (NoDup (path <$> Sample.store))).
    vm_compute. exact I.
  - reflexivity.
Defined.

Lemma bind_apply {A B} (m : Async A) (k : A -> Async B) (w : World) :
  bind m k w =
  match m w with
  | (Fulfilled a, w') => k a w'
  | (Rejected e, w') => (Rejected e, w')
  end.
Proof. done. Qed.

(** The loop over two lists one after the other is the loop over the
    first followed by the loop over the second. *)
Lemma Main_loop_app h tag F l1 l2 : forall notes w,
  Main.getNotesWithTag_loop h tag F (l1 ++ l2) notes w =
  match Main.getNotesWithTag_loop h tag F l1 notes w with
  | (Fulfilled notes1, w1) => Main.getNotesWithTag_loop h tag F l2 notes1 w1
  | (Rejected e, w1) => (Rejected e, w1)
  end.
Proof.
  induction l1 as [|file l1 IH]; intros notes w; [done|].
  rewrite <- app_comm_cons. cbn [Main.getNotesWithTag_loop].
  destruct (startsWith (path file) F); [|apply IH].
  rewrite !bind_apply.
  destruct (try_catch _ _ w) as [[notes'|e] w']; [apply IH | done].
Qed.

(** X6. When the read of a note in scope fails during discovery, the
    console holds an error line that names the note's path and carries
    the error of the read. *)
Theorem X6_unreadable_note_is_logged h tag F w before note after e :
  vault_getFiles h = before ++ note :: after ->
  startsWith (path note) F = true ->
  vault_read h (reads w + length (inScope F before)) note = Rejected e ->
  ErrorLine ("Error reading file: " +:+ path note) (Some e)
    ∈ console (Main.getNotesWithTag h tag F w).2.
Proof.
  intros Hfiles Hscope Hread. unfold Main.getNotesWithTag.
  rewrite Hfiles, Main_loop_app.
  destruct (Main_loop_run h tag F before [] w) as [lines ->].
  cbn [Main.getNotesWithTag_loop]. rewrite Hscope.
  unfold bind at 1, try_catch at 1. unfold bind at 1, read at 1.
  cbn [reads advance].
  rewrite (Nat.add_comm (length (inScope F before)) (reads w)), Hread.
  run.
  match goal with
  | |- context [Main.getNotesWithTag_loop h tag F after ?n ?w'] =>
      destruct (Main_loop_run h tag F after n w') as [lines' ->]
  end.
  simpl. apply elem_of_app. left. apply elem_of_app. right. left.
Qed.

Lemma X6_witness :
  ErrorLine ("Error reading file: " +:+ "/proj/note2.md")
    (Some "EACCES: permission denied")
    ∈ console (Main.getNotesWithTag Sample.unreadable "&uncover" "/proj"
                 emptyWorld).2.
Proof.
  apply (X6_unreadable_note_is_logged Sample.unreadable "&uncover" "/proj"
           emptyWorld [Sample.note1] Sample.note2
           [Sample.note3; Sample.current]);
    reflexivity.
Defined.

Lemma includes_empty (s : string) : includes s "" = true.
Proof. rewrite includes_unfold. by destruct s. Qed.

(** X7. The tag is not checked for emptiness: with the empty tag,
    discovery returns the path of every note in scope whose read is
    fulfilled, whatever its content. *)
Theorem X7_empty_tag_matches_every_readable_note h F w p :
  (exists notes, (Main.getNotesWithTag h "" F w).1 = Fulfilled notes /\
     (p ∈ notes <->
      exists k note text,
        inScope F (vault_getFiles h) !! k = Some note /\ path note = p /\
        vault_read h (reads w + k) note = Fulfilled text)).
Proof.
  destruct (Main_getNotesWithTag_run h "" F w) as [lines ->].
  eexists. split; [done|]. rewrite locate_spec_elem. split.
  - intros (k & note & text & ? & ? & ? & _). by exists k, note, text.
  - intros (k & note & text & ? & ? & ?). exists k, note, text.
    by rewrite includes_empty.
Qed.

(** ** Synthesis *)

Section Settling.
Context {A : Type}.
Implicit Types (ps : list (Outcome A)) (s : AllState A).

(** A rejection, once recorded, stays. *)
Lemma rejection_stays ps (order : list nat) : forall s e,
  rejection s = Some e ->
  rejection (foldl (onSettle ps) s order) = Some e.
Proof.
  induction order as [|i order IH]; intros s e Hs; [done|].
  simpl. apply IH. unfold onSettle.
  destruct (ps !! i) as [[v|e']|]; simpl; [done | by rewrite Hs | done].
Qed.

(** No rejection is recorded while only fulfilled promises settle. *)
Lemma rejection_none ps (order : list nat) : forall s,
  rejection s = None ->
  (forall j e, j ∈ order -> ps !! j <> Some (Rejected e)) ->
  rejection (foldl (onSettle ps) s order) = None.
Proof.
  induction order as [|i order IH]; intros s Hs Hok; [done|].
  simpl. apply IH.
  - unfold onSettle. destruct (ps !! i) as [[v|e']|] eqn:Hi; simpl; try done.
    exfalso. apply (Hok i e'); [left | done].
  - intros j e Hj. apply Hok. by right.
Qed.

(** The rejection recorded is that of the first rejected promise to
    settle. *)
Lemma rejection_first ps (before after : list nat) i e s :
  rejection s = None ->
  (forall j e', j ∈ before -> ps !! j <> Some (Rejected e')) ->
  ps !! i = Some (Rejected e) ->
  rejection (foldl (onSettle ps) s (before ++ i :: after)) = Some e.
Proof.
  intros Hs Hbefore Hi. rewrite foldl_app. simpl.
  apply rejection_stays. unfold onSettle at 1. rewrite Hi. simpl.
  by rewrite (rejection_none ps before s Hs Hbefore).
Qed.


(** Either every promise is fulfilled or one is rejected. *)
Lemma fulfilled_or_rejected ps :
  (exists cs, ps = Fulfilled <$> cs) \/ (exists e, Rejected e ∈ ps).
Proof.
  induction ps as [|[v|e] ps IH].
  - left. by exists [].
  - destruct IH as [[cs ->] | [e He]].
    + left. by exists (v :: cs).
    + right. exists e. by right.
  - right. exists e. left.
Qed.

End Settling.



(** X9. With a key and the reads fulfilled, a completion call that
    fails makes [generateContent] return the fixed failure text,
    whatever the error; the request was sent, and the error is on the
    console and nowhere in the text returned. *)
Theorem X9_provider_failure_is_caught h notes cs w e :
  truthy (Main.OPENAI_API_KEY h) = true ->
  slots h (reads w) notes = Fulfilled <$> cs ->
  completions_create h (Main_client h) (userRequest (Main.prompt cs)) =
    Rejected e ->
  exists w',
    Main.generateContent h notes w = (Fulfilled PROVIDER_FAILURE, w') /\
    requests w' =
      requests w ++ [(Main_client h, userRequest (Main.prompt cs))] /\
    console w' =
      console w ++ unresolvedLines h notes ++
      [ErrorLine "Error calling OpenAI API:" (Some e)].
Proof.
  intros Hkey Hslots Hfail.
  rewrite (Main_generateContent_run h notes w Hkey), Hslots,
    Promise_all_fulfilled. simpl. rewrite Hfail. simpl.
  eexists. split; [reflexivity|]. split; [done|]. simpl.
  by rewrite <- app_assoc.
Qed.

Lemma X9_witness :
  exists w',
    Main.generateContent
      {| vault_getFiles := Sample.store;
         vault_read := fun _ f => Fulfilled (Sample.text f);
         vault_getAbstractFileByPath := Sample.lookup;
         completions_create := fun _ _ => Rejected "429 rate limit";
         process_env := Sample.env;
         settle_order := [] |}
      ["/proj/note1.md"] emptyWorld = (Fulfilled PROVIDER_FAILURE, w').
Proof.
  destruct (X9_provider_failure_is_caught
              {| vault_getFiles := Sample.store;
                 vault_read := fun _ f => Fulfilled (Sample.text f);
                 vault_getAbstractFileByPath := Sample.lookup;
                 completions_create := fun _ _ => Rejected "429 rate limit";
                 process_env := Sample.env;
                 settle_order := [] |}
              ["/proj/note1.md"] ["...&uncover..."] emptyWorld "429 rate limit"
              eq_refl eq_refl eq_refl) as (w' & H & _).
  by exists w'.
Defined.

(** X10. One call of [generateContent] sends at most one request, and
    any request it sends names the model [gpt-4o-mini] and carries a
    single message, of role [user]. It issues one read for each path
    that resolves when there is a key, none when there is not, and it
    inserts nothing. *)
Theorem X10_at_most_one_request h notes w :
  let w' := (Main.generateContent h notes w).2 in
  (exists new, requests w' = requests w ++ new /\ length new <= 1 /\
     forall rq, rq ∈ new ->
       rq.1 = Main_client h /\ model rq.2 = "gpt-4o-mini" /\
       exists text, messages rq.2 = [ {| role := "user"; content := text |} ]) /\
  reads w' =
    (if truthy (Main.OPENAI_API_KEY h) then resolved h notes else 0) + reads w /\
  editor w' = editor w.
Proof.
  simpl. destruct (truthy (Main.OPENAI_API_KEY h)) eqn:Hkey.
  - rewrite (Main_generateContent_run h notes w Hkey). simpl.
    destruct (Promise_all _ _) as [cs|e]; simpl.
    + split; [|done]. eexists. split; [reflexivity|]. split; [simpl; lia|].
      intros rq Hrq. apply list_elem_of_singleton in Hrq as ->. simpl.
      split; [done|]. split; [done|]. by eexists.
    + split; [|done]. exists []. rewrite app_nil_r. split; [done|].
      split; [simpl; lia|]. intros rq Hrq. by apply elem_of_nil in Hrq.
  - unfold Main.generateContent. rewrite Hkey. simpl. split; [|done].
    exists []. rewrite app_nil_r. split; [done|].
    split; [simpl; lia|]. intros rq Hrq. by apply elem_of_nil in Hrq.
Qed.

(** X11. Given no paths and a key, [generateContent] still calls the
    provider: it reads nothing and sends the lead-in followed by an
    empty block. *)
Theorem X11_empty_input_still_calls_provider h w :
  truthy (Main.OPENAI_API_KEY h) = true ->
  let w' := (Main.generateContent h [] w).2 in
  requests w' =
    requests w ++
    [(Main_client h,
      userRequest ("Uncover relationships between the following notes:" +:+ LF))] /\
  reads w' = reads w.
Proof.
  intros Hkey. simpl. rewrite (Main_generateContent_run h [] w Hkey).
  cbn [slots]. rewrite (Promise_all_fulfilled (A := string) []). done.
Qed.

Lemma X11_witness :
  requests (Main.generateContent Sample.host [] emptyWorld).2 =
  [(Main_client Sample.host,
    userRequest ("Uncover relationships between the following notes:" +:+ LF))].
Proof.
  apply (X11_empty_input_still_calls_provider Sample.host emptyWorld eq_refl).
Defined.

(** X12. When several reads fail, the error [generateContent] is
    rejected with is that of the failed read that settles first: given
    the order in which the reads settle (each position once), it is the
    error at the first position of that order whose read is rejected. *)
Theorem X12_first_failure_to_settle_wins h notes w before i after e :
  truthy (Main.OPENAI_API_KEY h) = true ->
  NoDup (settle_order h) ->
  (forall j, j ∈ settle_order h <-> j < length notes) ->
  settle_order h = before ++ i :: after ->
  (forall j e', j ∈ before ->
     slots h (reads w) notes !! j <> Some (Rejected e')) ->
  slots h (reads w) notes !! i = Some (Rejected e) ->
  (Main.generateContent h notes w).1 = Rejected e.
Proof.
  intros Hkey Hnd Hrange Horder Hbefore Hi.
  rewrite (Main_generateContent_run h notes w Hkey). simpl.
  unfold Promise_all. rewrite slots_length.
  rewrite (settleOrder_permutation _ _ Hnd Hrange), Horder.
  rewrite (rejection_first _ before after i e); done.
Qed.

Lemma X12_witness :
  (Main.generateContent
     {| vault_getFiles := Sample.store;
        vault_read := fun k _ =>
          if k =? 0 then Rejected "first read failed"
          else Rejected "second read failed";
        vault_getAbstractFileByPath := Sample.lookup;
        completions_create := fun _ _ => Fulfilled Sample.answer;
        process_env := Sample.env;
        settle_order := [1; 0] |}
     ["/proj/note1.md"; "/proj/note2.md"] emptyWorld).1 =
  Rejected "second read failed".
Proof.
  apply (X12_first_failure_to_settle_wins _ _ _ [] 1 [0]).
  - reflexivity.
  - apply (bool_decide_unpack (NoDup [1; 0])). vm_compute. exact I.
  - intros j. simpl. rewrite !elem_of_cons, elem_of_nil. lia.
  - reflexivity.
  - intros j e' Hj. by apply elem_of_nil in Hj.
  - reflexivity.
Defined.

(** ** The command as a whole *)

Lemma Main_generateContent_rejected h notes w e w' :
  Main.generateContent h notes w = (Rejected e, w') ->
  requests w' = requests w.
Proof.
  destruct (truthy (Main.OPENAI_API_KEY h)) eqn:Hkey.
  - rewrite (Main_generateContent_run h notes w Hkey). simpl.
    destruct (Promise_all _ _); [done|]. by intros [= _ <-].
  - unfold Main.generateContent. by rewrite Hkey.
Qed.

(** X13. Whatever the view, the store and the provider, the command of
    [src/main.ts] inserts exactly one text when it completes; when it
    is rejected it has inserted nothing and sent nothing. *)
Theorem X13_command_inserts_once_or_fails_silently h view w :
  match Main.editorCallback h view w with
  | (Fulfilled _, w') => exists text, editor w' = editor w ++ [text]
  | (Rejected _, w') => editor w' = editor w /\ requests w' = requests w
  end.
Proof.
  destruct (file view) as [current|] eqn:Hview.
  - destruct (truthy (path current)) eqn:Hpath.
    + rewrite (Main_editorCallback_run h view current w Hview Hpath). simpl.
      destruct (Main_getNotesWithTag_run h "&uncover" (folderOf (path current))
                  (searching w (folderOf (path current)))) as [lines ->].
      destruct (length _ =? 0); [by eexists|].
      set (w1 := advance _ lines _).
      pose proof (Main_generateContent_editor h
        (locate_spec h "&uncover" (folderOf (path current))
           (reads (searching w (folderOf (path current)))) (vault_getFiles h)) w1) as He.
      pose proof (Main_generateContent_rejected h
        (locate_spec h "&uncover" (folderOf (path current))
           (reads (searching w (folderOf (path current)))) (vault_getFiles h)) w1) as Hr.
      destruct (Main.generateContent h _ w1) as [[r|e] w2]; simpl in *.
      * eexists. by rewrite He.
      * split; [by rewrite He | by rewrite (Hr e w2 eq_refl)].
    + unfold Main.editorCallback. rewrite Hview. simpl. rewrite Hpath. simpl.
      by eexists.
  - unfold Main.editorCallback. rewrite Hview. simpl. by eexists.
Qed.

(** X14. The whole command on its successful path: run from a note
    with a path and with a key, when discovery finds notes, their
    re-reads are fulfilled and the provider answers with a non-empty
    first content, the command inserts the heading followed by exactly
    that content, after one request whose prompt holds the contents read
    again. *)
Theorem X14_command_inserts_the_answer h view current w cs response answer :
  file view = Some current -> truthy (path current) = true ->
  truthy (Main.OPENAI_API_KEY h) = true ->
  let F := folderOf (path current) in
  let notes := locate_spec h "&uncover" F (reads w) (vault_getFiles h) in
  notes <> [] ->
  slots h (length (inScope F (vault_getFiles h)) + reads w) notes =
    Fulfilled <$> cs ->
  completions_create h (Main_client h) (userRequest (Main.prompt cs)) =
    Fulfilled response ->
  firstContent response = Some answer -> answer <> "" ->
  exists w',
    Main.editorCallback h view w = (Fulfilled tt, w') /\
    editor w' =
      editor w ++ [LF +:+ "## Relationships Uncovered:" +:+ LF +:+ answer] /\
    requests w' =
      requests w ++ [(Main_client h, userRequest (Main.prompt cs))].
Proof.
  intros Hview Hpath Hkey F notes Hnotes Hslots Hanswer Hfirst Hne.
  rewrite (Main_editorCallback_run h view current w Hview Hpath).
  cbv zeta. fold F.
  destruct (Main_getNotesWithTag_run h "&uncover" F (searching w F)) as [lines ->].
  fold F. change (reads (searching w F)) with (reads w). fold notes.
  destruct notes as [|p notes'] eqn:E; [done|]. simpl length. simpl Nat.eqb.
  cbv iota. rewrite <- E in *.
  rewrite (Main_generateContent_run h notes _ Hkey).
  cbn [reads advance]. change (reads (searching w F)) with (reads w).
  rewrite Hslots, Promise_all_fulfilled.
  simpl. rewrite Hanswer. unfold reply. rewrite Hfirst.
  destruct answer as [|a s]; [done|]. simpl.
  eexists. split; [reflexivity|]. done.
Qed.

Lemma X14_witness :
  exists w',
    Main.editorCallback Sample.host Sample.view emptyWorld = (Fulfilled tt, w') /\
    editor w' =
      [LF +:+ "## Relationships Uncovered:" +:+ LF +:+ "A relates to B via X"].
Proof.
  destruct (X14_command_inserts_the_answer Sample.host Sample.view Sample.current
              emptyWorld ["...&uncover..."; "&uncover"; "draft &uncover"]
              Sample.answer "A relates to B via X"
              eq_refl eq_refl eq_refl)
    as (w' & H1 & H2 & _).
  - vm_compute. discriminate.
  - vm_compute. reflexivity.
  - reflexivity.
  - reflexivity.
  - discriminate.
  - exists w'. split; [exact H1 | exact H2].
Defined.

(** X15. In [src/main.ts] the key is only looked at after discovery:
    without a key, a command that finds tagged notes has read every note
    in scope, sends nothing, and inserts the configuration-missing text
    under the heading of a result. *)
Theorem X15_missing_key_is_reported_after_discovery h view current w :
  file view = Some current -> truthy (path current) = true ->
  truthy (Main.OPENAI_API_KEY h) = false ->
  let F := folderOf (path current) in
  locate_spec h "&uncover" F (reads w) (vault_getFiles h) <> [] ->
  exists w',
    Main.editorCallback h view w = (Fulfilled tt, w') /\
    editor w' =
      editor w ++ [LF +:+ "## Relationships Uncovered:" +:+ LF +:+ MISSING_KEY_ENV] /\
    reads w' = length (inScope F (vault_getFiles h)) + reads w /\
    requests w' = requests w.
Proof.
  intros Hview Hpath Hkey F Hnotes.
  rewrite (Main_editorCallback_run h view current w Hview Hpath).
  cbv zeta. fold F.
  destruct (Main_getNotesWithTag_run h "&uncover" F (searching w F)) as [lines ->].
  fold F. change (reads (searching w F)) with (reads w).
  destruct (locate_spec h "&uncover" F (reads w) (vault_getFiles h))
    as [|p notes']; [done|].
  simpl length. simpl Nat.eqb. cbv iota.
  unfold Main.generateContent. rewrite Hkey. simpl.
  eexists. split; [reflexivity|]. done.
Qed.

Lemma X15_witness :
  exists w',
    Main.editorCallback Sample.keyless Sample.view emptyWorld = (Fulfilled tt, w') /\
    editor w' =
      [LF +:+ "## Relationships Uncovered:" +:+ LF +:+ MISSING_KEY_ENV] /\
    reads w' = 3.
Proof.
  destruct (X15_missing_key_is_reported_after_discovery Sample.keyless
              Sample.view Sample.current emptyWorld eq_refl eq_refl eq_refl)
    as (w' & H1 & H2 & H3 & _); [vm_compute; discriminate|].
  exists w'. split; [exact H1|]. split; [exact H2 | exact H3].
Defined.

(** ** The variant that does not wait, later on *)

Lemma settleOrder_in_order (n : nat) : settleOrder [] n = seq 0 n.
Proof.
  unfold settleOrder. simpl. apply forallb_filter_id.
  by apply forallb_forall.
Qed.

Lemma settleOrder_range (schedule : list nat) (n i : nat) :
  i ∈ settleOrder schedule n -> i < n.
Proof.
  unfold settleOrder. intros H. apply elem_of_app in H as [H|H].
  - apply elem_of_remove_dups, list_elem_of_In, filter_In in H as [_ H].
    by apply Nat.ltb_lt.
  - apply list_elem_of_In, filter_In in H as [H _]. apply in_seq in H. lia.
Qed.

(** Every position settles, and only once. *)
Lemma settleOrder_Permutation (schedule : list nat) (n : nat) :
  settleOrder schedule n ≡ₚ seq 0 n.
Proof.
  apply NoDup_Permutation.
  - unfold settleOrder. apply NoDup_app. split; [apply NoDup_remove_dups|].
    split.
    + intros i Hi Hi'. apply list_elem_of_In, filter_In in Hi' as [_ Hi'].
      apply negb_true_iff in Hi'.
      assert (existsb (Nat.eqb i)
                (remove_dups (List.filter (fun i => i <? n) schedule)) = true)
        as Hex; [|congruence].
      apply existsb_exists. exists i. split; [by apply list_elem_of_In|].
      apply Nat.eqb_refl.
    + apply NoDup_ListNoDup, List.NoDup_filter, NoDup_ListNoDup, NoDup_seq.
  - apply NoDup_seq.
  - intros i. split.
    + intros Hi. apply elem_of_seq. apply settleOrder_range in Hi. lia.
    + intros Hi. apply elem_of_seq in Hi. apply settleOrder_covers. lia.
Qed.

Lemma omap_ext_in {A B} (f g : A -> option B) (l : list A) :
  (forall x, x ∈ l -> f x = g x) -> omap f l = omap g l.
Proof.
  induction l as [|x l IH]; intros H; [done|]. csimpl.
  rewrite (H x) by left. rewrite IH; [done|]. intros y Hy. apply H. by right.
Qed.

Lemma omap_lookup_seq {A} (l : list A) :
  omap (fun i => l !! i) (seq 0 (length l)) = l.
Proof.
  induction l as [|x l IH] using rev_ind; [done|].
  rewrite length_app. simpl. rewrite Nat.add_1_r, seq_S. simpl.
  rewrite omap_app. simpl.
  rewrite lookup_app_r, Nat.sub_diag by done. simpl. f_equal.
  rewrite <- IH at 2. apply omap_ext_in.
  intros i Hi. apply elem_of_seq in Hi. apply lookup_app_l. lia.
Qed.

Lemma filter_Permutation_bool {A} (f : A -> bool) (l k : list A) :
  l ≡ₚ k -> List.filter f l ≡ₚ List.filter f k.
Proof.
  induction 1 as [|x l k _ IH|x y l|l k m _ IH1 _ IH2]; simpl.
  - done.
  - destruct (f x); [by constructor | done].
  - destruct (f x), (f y); try done. apply perm_swap.
  - by etrans.
Qed.

(** In order, the callbacks push what the specification's locator
    selects. *)
Lemma pushes_callbacks h tag F a k store :
  pushes (callbacks h tag F a k store)
    (seq 0 (length (callbacks h tag F a k store))) =
  locate_spec h tag F k store.
Proof.
  unfold pushes. rewrite omap_lookup_seq.
  unfold callbacks, locate_spec.
  induction (contentsAsRead h k (inScope F store)) as [|[note o] l IH]; [done|].
  simpl. unfold containsTag at 1. simpl.
  destruct o as [text|e]; simpl; [|exact IH].
  destruct (includes text tag); simpl; [f_equal|]; exact IH.
Qed.

(** What the pending callbacks do to the arrays when they all push onto
    the array [a]. *)
Lemma runCallbacks_arrays (cbs : list ThenCallback) (a : nat) :
  (forall cb, cb ∈ cbs -> then_notes cb = a) ->
  forall (order : list nat) (w : World),
    arrays (foldl (fun w i => match cbs !! i with
                              | Some cb => runCallback cb w
                              | None => w
                              end) w order) =
    alter (fun l => l ++ pushes cbs order) a (arrays w).
Proof.
  intros Hall order. induction order as [|i order IH]; intros w.
  - simpl. symmetry. apply list_alter_id. intros l. apply app_nil_r.
  - simpl. rewrite IH. unfold pushes at 2. csimpl.
    destruct (cbs !! i) as [cb|] eqn:Hi; simpl; [|done].
    unfold runCallback.
    destruct (then_promise cb) as [text|e] eqn:Hp; simpl; [|done].
    destruct (includes text (then_tag cb)) eqn:Ht; simpl; [|done].
    rewrite (Hall cb) by (by eapply list_elem_of_lookup_2).
    rewrite list_alter_alter_eq. apply list_alter_ext; [|done].
    intros l _. simpl. by rewrite <- app_assoc.
Qed.

Lemma callbacks_notes h tag F a k store cb :
  cb ∈ callbacks h tag F a k store -> then_notes cb = a.
Proof.
  unfold callbacks. intros H. apply list_elem_of_In, in_map_iff in H.
  by destruct H as (entry & <- & _).
Qed.

Lemma pushes_Permutation (cbs : list ThenCallback) (o1 o2 : list nat) :
  o1 ≡ₚ o2 -> pushes cbs o1 ≡ₚ pushes cbs o2.
Proof.
  intros H. unfold pushes. apply fmap_Permutation, filter_Permutation_bool.
  by apply omap_Permutation.
Qed.

(** X16. In [part_001] the array [getNotesWithTag] returned empty is
    filled once the pending callbacks run: whatever the order in which
    the reads settle, it then holds the paths that [src/main.ts] would
    have returned, each once, in the order of settlement; when the reads
    settle in the order they were issued it holds them in that same
    order. The command has looked at the array before. *)
Theorem X16_part001_array_is_filled_later h tag F w schedule :
  pending w = [] ->
  let a := length (arrays w) in
  let w' := (Part001.getNotesWithTag h tag F w).2 in
  let expected := locate_spec h tag F (reads w) (vault_getFiles h) in
  arrays w' !! a = Some [] /\
  exists later,
    arrays (runPending schedule w') !! a = Some later /\
    later ≡ₚ expected /\
    (schedule = [] -> later = expected).
Proof.
  intros Hpending a w' expected. unfold w'.
  rewrite Part001_getNotesWithTag_run. cbn [snd]. unfold registered.
  rewrite Hpending, app_nil_l. fold a. split.
  - cbn [arrays]. by rewrite lookup_app_r, Nat.sub_diag.
  - unfold runPending. cbn [pending arrays console reads requests editor].
    set (cbs := callbacks h tag F a (reads w) (vault_getFiles h)).
    rewrite (runCallbacks_arrays cbs a); [|intros cb; apply callbacks_notes].
    cbn [arrays]. rewrite list_lookup_alter_eq.
    rewrite lookup_app_r, Nat.sub_diag by done. simpl.
    eexists. split; [reflexivity|]. split.
    + unfold expected. rewrite <- (pushes_callbacks h tag F a).
      apply pushes_Permutation, settleOrder_Permutation.
    + intros ->. rewrite settleOrder_in_order. apply pushes_callbacks.
Qed.

Lemma X16_witness :
  exists later,
    arrays (runPending [2; 0; 1]
              (Part001.getNotesWithTag Sample.host "&uncover" "/proj"
                 emptyWorld).2) !! 0 = Some later /\
    later ≡ₚ ["/proj/note1.md"; "/proj/note2.md"; "/proj/current.md"].
Proof.
  destruct (X16_part001_array_is_filled_later Sample.host "&uncover" "/proj"
              emptyWorld [2; 0; 1] eq_refl) as (_ & later & H1 & H2 & _).
  exists later. split; [exact H1 | exact H2].
Defined.

(** [notes.map] in [part_001], when every path resolves to a file. *)
Lemma Part001_map_run h notes : forall w,
  Forall (fun p => is_Some (resolve h p)) notes ->
  mapA (fun notePath =>
          read_unchecked h (vault_getAbstractFileByPath h notePath)) notes w =
  (Fulfilled (slots h (reads w) notes), advance w [] (length notes)).
Proof.
  induction notes as [|p notes IH]; intros w Hall.
  - simpl. unfold ret. by rewrite advance_nothing.
  - apply Forall_cons in Hall as [[f Hf] Hall]. cbn [mapA slots].
    rewrite Hf. unfold resolve in Hf. rewrite bind_apply.
    destruct (vault_getAbstractFileByPath h p) as [[f'|d]|]; try done.
    injection Hf as ->. simpl. rewrite bind_apply, (IH _ Hall). simpl.
    unfold ret. f_equal. unfold advance. simpl.
    f_equal; first [lia | by rewrite ?app_nil_r].
Qed.

(** X17. [part_001] has no text for an empty answer. With a key, every
    path resolving to a file and every read fulfilled: when the response
    has no choices, looking into the first choice throws inside the
    [try] and the call returns the provider-failure text; when the
    first choice's content is [null], the call returns [null]. *)
Theorem X17_part001_has_no_empty_answer_text h notes cs w response :
  truthy (Part001.OPENAI_API_KEY h) = true ->
  Forall (fun p => is_Some (resolve h p)) notes ->
  slots h (reads w) notes = Fulfilled <$> cs ->
  completions_create h
    {| organization := Some (Part001.ORG_ID h);
       project := Some (Part001.PROJECT_ID h); apiKey := None |}
    (userRequest (Part001.prompt cs)) = Fulfilled response ->
  (choices response = [] ->
   (Part001.generateContent h notes w).1 = Fulfilled (Some PROVIDER_FAILURE)) /\
  (forall rest,
     choices response =
       {| message := Some {| message_content := None |} |} :: rest ->
     (Part001.generateContent h notes w).1 = Fulfilled None).
Proof.
  intros Hkey Hall Hslots Hanswer.
  split; [intros Hchoices | intros rest Hchoices];
    unfold Part001.generateContent; rewrite Hkey;
    change (negb true) with false; cbv beta iota;
    rewrite bind_apply, (Part001_map_run h notes w Hall);
    rewrite bind_apply; unfold await at 1;
    rewrite Hslots, Promise_all_fulfilled;
    unfold try_catch; rewrite bind_apply; unfold create at 1;
    fold (userRequest (Part001.prompt cs)); rewrite Hanswer, Hchoices;
    done.
Qed.

Lemma X17_witness :
  (Part001.generateContent Sample.speechless ["/proj/note1.md"] emptyWorld).1 =
  Fulfilled (Some PROVIDER_FAILURE).
Proof.
  assert (Forall (fun p => is_Some (resolve Sample.speechless p))
            ["/proj/note1.md"]) as Hall.
  { apply Forall_cons. split; [|apply Forall_nil_2]. eexists. reflexivity. }
  apply (proj1 (X17_part001_has_no_empty_answer_text Sample.speechless
                  ["/proj/note1.md"] ["...&uncover..."] emptyWorld
                  {| choices := [] |} eq_refl Hall eq_refl eq_refl)).
  reflexivity.
Defined.

(** ** The settings of [part_000] *)

Lemma trimStart_blank (ws s : string) :
  Settings.blank ws = true ->
  Settings.trimStart (ws +:+ s) = Settings.trimStart s.
Proof.
  induction ws as [|c ws IH]; intros H; [done|].
  simpl in H. apply andb_true_iff in H as [Hc Hws].
  change (String c ws +:+ s) with (String c (ws +:+ s)).
  simpl. rewrite Hc. by apply IH.
Qed.

Lemma trimEnd_blank (ws : string) :
  Settings.blank ws = true -> Settings.trimEnd ws = "".
Proof.
  induction ws as [|c ws IH]; intros H; [done|].
  simpl in H. apply andb_true_iff in H as [Hc Hws].
  simpl. by rewrite (IH Hws), Hc.
Qed.

Lemma trimEnd_solid (key ws : string) :
  Settings.solid key = true -> Settings.blank ws = true ->
  Settings.trimEnd (key +:+ ws) = key.
Proof.
  induction key as [|c key IH]; intros Hk Hws.
  - by apply trimEnd_blank.
  - simpl in Hk. apply andb_true_iff in Hk as [Hc Hk].
    apply negb_true_iff in Hc.
    change (String c key +:+ ws) with (String c (key +:+ ws)).
    simpl. rewrite (IH Hk Hws). destruct key; [by rewrite Hc | done].
Qed.

Lemma trimStart_solid (key ws : string) :
  Settings.solid key = true -> Settings.blank ws = true ->
  Settings.trimStart (key +:+ ws) = key +:+ Settings.trimStart ws \/
  Settings.trimStart (key +:+ ws) = key +:+ ws.
Proof.
  destruct key as [|c key]; intros Hk Hws; [by left|]. right.
  simpl in Hk. apply andb_true_iff in Hk as [Hc _].
  apply negb_true_iff in Hc.
  change (String c key +:+ ws) with (String c (key +:+ ws)).
  simpl. by rewrite Hc.
Qed.

(** A key with white space around it is trimmed to the key. *)
Lemma trim_surrounded (ws1 key ws2 : string) :
  Settings.blank ws1 = true -> Settings.solid key = true ->
  Settings.blank ws2 = true ->
  Settings.trim (ws1 +:+ key +:+ ws2) = key.
Proof.
  intros H1 Hk H2. unfold Settings.trim. rewrite (trimStart_blank _ _ H1).
  destruct (trimStart_solid key ws2 Hk H2) as [-> | ->].
  - apply trimEnd_solid; [done|].
    clear -H2. induction ws2 as [|c ws IH]; [done|].
    simpl in H2. apply andb_true_iff in H2 as [Hc Hws].
    simpl. rewrite Hc. by apply IH.
  - by apply trimEnd_solid.
Qed.

(** X18. A key typed or pasted with white space around it is kept
    without it, and survives a restart: when the save succeeds,
    [onChange] leaves the bare key in the settings and on disk, and
    [loadSettings] run on what is then stored gives the bare key back. *)
Theorem X18_key_is_trimmed_and_survives_reload saveData ws1 key ws2 p :
  Settings.blank ws1 = true -> Settings.solid key = true ->
  Settings.blank ws2 = true ->
  saveData {| Part000.settings_apiKey := key |} = Fulfilled tt ->
  let changed := Settings.onChange saveData (ws1 +:+ key +:+ ws2) p in
  changed.1 = Fulfilled tt /\
  Part000.settings_apiKey (Settings.settings changed.2) = key /\
  Settings.data changed.2 = Some {| Settings.stored_apiKey := Some key |} /\
  Part000.settings_apiKey
    (Settings.settings (Settings.loadSettings changed.2).2) = key.
Proof.
  intros H1 Hk H2 Hsave. unfold Settings.onChange, Settings.saveSettings.
  simpl. rewrite (trim_surrounded ws1 key ws2 H1 Hk H2), Hsave. done.
Qed.

Lemma X18_witness :
  Part000.settings_apiKey
    (Settings.settings
       (Settings.loadSettings
          (Settings.onChange (fun _ => Fulfilled tt)
             ("  " +:+ "sk-test" +:+ String "010"%char "")
             {| Settings.settings := Part000.DEFAULT_SETTINGS;
                Settings.data := None; Settings.tab_console := [] |}).2).2) =
  "sk-test".
Proof.
  apply (X18_key_is_trimmed_and_survives_reload (fun _ => Fulfilled tt)
           "  " "sk-test" (String "010"%char "")); reflexivity.
Defined.

(** X19. A key of white space only counts as no key: after [onChange]
    with such a value the settings hold the empty key, and the command
    run with these settings inserts the configuration-missing text and
    does nothing else: no note is read, nothing is sent. *)
Theorem X19_blank_key_is_no_key saveData value p h view w :
  Settings.blank value = true ->
  let settings := Settings.settings (Settings.onChange saveData value p).2 in
  Part000.settings_apiKey settings = "" /\
  Part000.editorCallback h settings view w =
    (Fulfilled tt, inserted w MISSING_KEY_SETTINGS).
Proof.
  intros Hblank.
  assert (Settings.trim value = "") as Htrim.
  { rewrite <- (append_empty_r value).
    change (value +:+ "") with (value +:+ "" +:+ "").
    by apply trim_surrounded. }
  assert (Part000.settings_apiKey
            (Settings.settings (Settings.onChange saveData value p).2) = "")
    as Hkey.
  { unfold Settings.onChange, Settings.saveSettings. simpl. rewrite Htrim.
    by destruct (saveData _). }
  simpl. split; [exact Hkey|].
  unfold Part000.editorCallback. by rewrite Hkey.
Qed.

Lemma X19_witness :
  Part000.editorCallback Sample.host
    (Settings.settings
       (Settings.onChange (fun _ => Fulfilled tt) "   "
          {| Settings.settings := Sample.settings;
             Settings.data := None; Settings.tab_console := [] |}).2)
    Sample.view emptyWorld =
  (Fulfilled tt, inserted emptyWorld MISSING_KEY_SETTINGS).
Proof.
  apply (proj2 (X19_blank_key_is_no_key (fun _ => Fulfilled tt) "   "
                  {| Settings.settings := Sample.settings;
                     Settings.data := None; Settings.tab_console := [] |}
                  Sample.host Sample.view emptyWorld eq_refl)).
Defined.

(** X20. [onChange] sets the key in memory before it saves: when the
    save fails the call is rejected with the error of the save, the
    stored data and the console are as before, yet the settings in
    memory already hold the new key. *)
Theorem X20_failed_save_keeps_the_new_key_in_memory saveData value p e :
  saveData {| Part000.settings_apiKey := Settings.trim value |} = Rejected e ->
  let changed := Settings.onChange saveData value p in
  changed.1 = Rejected e /\
  Part000.settings_apiKey (Settings.settings changed.2) = Settings.trim value /\
  Settings.data changed.2 = Settings.data p /\
  Settings.tab_console changed.2 = Settings.tab_console p.
Proof.
  intros Hsave. unfold Settings.onChange, Settings.saveSettings. simpl.
  by rewrite Hsave.
Qed.

Lemma X20_witness :
  (Settings.onChange (fun _ => Rejected "ENOSPC") "sk-new"
     {| Settings.settings := Sample.settings;
        Settings.data := None; Settings.tab_console := [] |}).1 =
    Rejected "ENOSPC" /\
  Part000.settings_apiKey
    (Settings.settings
       (Settings.onChange (fun _ => Rejected "ENOSPC") "sk-new"
          {| Settings.settings := Sample.settings;
             Settings.data := None; Settings.tab_console := [] |}).2) =
    "sk-new".
Proof.
  destruct (X20_failed_save_keeps_the_new_key_in_memory
              (fun _ => Rejected "ENOSPC") "sk-new"
              {| Settings.settings := Sample.settings;
                 Settings.data := None; Settings.tab_console := [] |}
              "ENOSPC" eq_refl) as (H1 & H2 & _).
  split; [exact H1 | exact H2].
Defined.

(** X21. On a first run, with no data file or with stored data that
    lacks the key, [loadSettings] yields the empty key, so that
    [generateContent] returns the configuration-missing text without
    reading or sending anything. *)
Theorem X21_first_run_has_no_key p h notes w :
  Settings.data p = None \/
  Settings.data p = Some {| Settings.stored_apiKey := None |} ->
  let settings := Settings.settings (Settings.loadSettings p).2 in
  settings = Part000.DEFAULT_SETTINGS /\
  Part000.generateContent h settings notes w =
    (Fulfilled MISSING_KEY_SETTINGS, w).
Proof.
  intros Hdata. simpl.
  assert (Settings.assign Part000.DEFAULT_SETTINGS (Settings.data p) =
          Part000.DEFAULT_SETTINGS) as ->.
  { by destruct Hdata as [-> | ->]. }
  done.
Qed.

Lemma X21_witness :
  Part000.generateContent Sample.host
    (Settings.settings
       (Settings.loadSettings
          {| Settings.settings := Sample.settings;
             Settings.data := None; Settings.tab_console := [] |}).2)
    ["/proj/note1.md"] emptyWorld =
  (Fulfilled MISSING_KEY_SETTINGS, emptyWorld).
Proof.
  apply (proj2 (X21_first_run_has_no_key
                  {| Settings.settings := Sample.settings;
                     Settings.data := None; Settings.tab_console := [] |}
                  Sample.host ["/proj/note1.md"] emptyWorld
                  (or_introl eq_refl))).
Defined.

(** X22. Every change of the key that is saved writes the key itself,
    in clear, to the console. *)
Theorem X22_saved_key_is_written_to_the_console saveData value p :
  saveData {| Part000.settings_apiKey := Settings.trim value |} = Fulfilled tt ->
  Settings.tab_console (Settings.onChange saveData value p).2 =
  Settings.tab_console p ++ [LogLine ("API Key updated: " +:+ Settings.trim value)].
Proof.
  intros Hsave. unfold Settings.onChange, Settings.saveSettings. simpl.
  by rewrite Hsave.
Qed.

Lemma X22_witness :
  Settings.tab_console
    (Settings.onChange (fun _ => Fulfilled tt) " sk-test "
       {| Settings.settings := Part000.DEFAULT_SETTINGS;
          Settings.data := None; Settings.tab_console := [] |}).2 =
  [LogLine "API Key updated: sk-test"].
Proof.
  apply (X22_saved_key_is_written_to_the_console (fun _ => Fulfilled tt)
           " sk-test "
           {| Settings.settings := Part000.DEFAULT_SETTINGS;
              Settings.data := None; Settings.tab_console := [] |} eq_refl).
Defined.

(** X23. Discovery in [src/main.ts] writes the whole content of every
    note in scope that it reads to the console, tagged or not. *)
Theorem X23_content_of_each_note_read_is_logged h tag F w before note after text :
  vault_getFiles h = before ++ note :: after ->
  startsWith (path note) F = true ->
  vault_read h (reads w + length (inScope F before)) note = Fulfilled text ->
  LogLine ("File content: " +:+ text)
    ∈ console (Main.getNotesWithTag h tag F w).2.
Proof.
  intros Hfiles Hscope Hread. unfold Main.getNotesWithTag.
  rewrite Hfiles, Main_loop_app.
  destruct (Main_loop_run h tag F before [] w) as [lines ->].
  cbn [Main.getNotesWithTag_loop]. rewrite Hscope.
  unfold bind at 1, try_catch at 1. unfold bind at 1, read at 1.
  cbn [reads advance].
  rewrite (Nat.add_comm (length (inScope F before)) (reads w)), Hread.
  run.
  destruct (includes text tag); run;
    match goal with
    | |- context [Main.getNotesWithTag_loop h tag F after ?n ?w'] =>
        destruct (Main_loop_run h tag F after n w') as [lines' ->]
    end;
    simpl; rewrite !elem_of_app, !elem_of_cons; tauto.
Qed.

Lemma X23_witness :
  LogLine ("File content: " +:+ "&uncover")
    ∈ console (Main.getNotesWithTag Sample.host "&uncover" "/proj"
                 emptyWorld).2.
Proof.
  apply (X23_content_of_each_note_read_is_logged Sample.host "&uncover" "/proj"
           emptyWorld [Sample.note1] Sample.note2
           [Sample.note3; Sample.current]);
    reflexivity.
Defined.
